(** * workbook_downloader: a verified model of [main.go]

    The program downloads a numbered range of images with a pool of worker
    goroutines, converts every decoded image to an 8-bit RGBA raster, puts
    the results back in ascending order of their index and appends one PDF
    page per image.

    Layout of this development:
    - [Geom], [Img]: the parts of Go's [image] and [image/draw] packages that
      [convertTo8Bit] calls, at their documented behaviour;
    - [Repo]: the functions of [main.go] ([DownloadImage], [convertTo8Bit],
      [worker], [AddImageToPDF], [main]) as a transition system over
      goroutines, channels and a wait group, driven by an explicit schedule;
    - the invariants of that system and the theorems about it. *)

From Stdlib Require Import ZArith QArith List Lia String.
From stdpp Require Import base tactics option list list_numbers sorting gmap strings pretty relations.

Local Open Scope Z_scope.

(* ===================================================================== *)
(** ** Machine integers *)
(* ===================================================================== *)

(** Go's [int] is 64 bits wide on the platforms the program is built for;
    [i++] wraps around in two's complement. *)
Definition int_min : Z := - 2 ^ 63.
Definition int_max : Z := 2 ^ 63 - 1.

Definition wrap_int (z : Z) : Z := (z + 2 ^ 63) mod 2 ^ 64 - 2 ^ 63.

(** [i++] on an [int]. *)
Definition int_incr (i : Z) : Z := wrap_int (i + 1).

(** [uint8(v)]: conversion keeps the low eight bits. *)
Definition uint8 (v : Z) : Z := Z.land v 255.

(* ===================================================================== *)
(** ** Package [image]: points and rectangles *)
(* ===================================================================== *)

Module Geom.

Record Point := mkPoint { X : Z; Y : Z }.

Record Rectangle := mkRect { Min : Point; Max : Point }.

(** [image.Point{}] *)
Definition ZP : Point := mkPoint 0 0.

(** [image.ZR], the zero rectangle. *)
Definition ZR : Rectangle := mkRect ZP ZP.

Definition PAdd (p q : Point) : Point := mkPoint (X p + X q) (Y p + Y q).
Definition PSub (p q : Point) : Point := mkPoint (X p - X q) (Y p - Y q).

Definition Dx (r : Rectangle) : Z := X (Max r) - X (Min r).
Definition Dy (r : Rectangle) : Z := Y (Max r) - Y (Min r).

Definition RAdd (r : Rectangle) (p : Point) : Rectangle :=
  mkRect (PAdd (Min r) p) (PAdd (Max r) p).

(** [r.Empty()] *)
Definition Empty (r : Rectangle) : bool :=
  (X (Max r) <=? X (Min r)) || (Y (Max r) <=? Y (Min r)).

(** [p.In(r)] *)
Definition PIn (p : Point) (r : Rectangle) : bool :=
  (X (Min r) <=? X p) && (X p <? X (Max r)) &&
  (Y (Min r) <=? Y p) && (Y p <? Y (Max r)).

(** [r.Intersect(s)]: the largest rectangle contained in both, or [ZR]. *)
Definition Intersect (r s : Rectangle) : Rectangle :=
  let r' := mkRect (mkPoint (Z.max (X (Min r)) (X (Min s)))
                            (Z.max (Y (Min r)) (Y (Min s))))
                   (mkPoint (Z.min (X (Max r)) (X (Max s)))
                            (Z.min (Y (Max r)) (Y (Max s)))) in
  if Empty r' then ZR else r'.

(** A rectangle is well formed when [Min] is not beyond [Max]. *)
Definition WellFormed (r : Rectangle) : Prop :=
  X (Min r) <= X (Max r) /\ Y (Min r) <= Y (Max r).

End Geom.

Import Geom.

(* ===================================================================== *)
(** ** Package [image]: colours, [*image.RGBA] and the [image.Image] interface *)
(* ===================================================================== *)

Module Img.

(** What [color.Color.RGBA()] returns: four alpha-premultiplied channels,
    each a [uint32] holding a 16-bit value. *)
Record Color := mkColor { cr : Z; cg : Z; cb : Z; ca : Z }.

(** [color.RGBA]: four 8-bit channels. *)
Record RGBA8 := mkRGBA8 { R8 : Z; G8 : Z; B8 : Z; A8 : Z }.

(** [color.RGBA.RGBA()]: [r = uint32(c.R); r |= r << 8], and so on. *)
Definition widen (v : Z) : Z := Z.lor v (Z.shiftl v 8).

Definition RGBA8_RGBA (c : RGBA8) : Color :=
  mkColor (widen (R8 c)) (widen (G8 c)) (widen (B8 c)) (widen (A8 c)).

(** The 8-bit value [image/draw] stores for a 16-bit channel:
    [uint8(v >> 8)]. *)
Definition narrow (v : Z) : Z := uint8 (Z.shiftr v 8).

Definition to_RGBA8 (c : Color) : RGBA8 :=
  mkRGBA8 (narrow (cr c)) (narrow (cg c)) (narrow (cb c)) (narrow (ca c)).

(** [image.RGBA]: the pixel buffer [Pix] holds R, G, B, A bytes per pixel,
    rows [Stride] bytes apart, for the pixels of [Rect]. *)
Record RGBA := mkRGBA { Pix : list Z; Stride : Z; Rect : Rectangle }.

(** [p.PixOffset(x, y)] *)
Definition PixOffset (p : RGBA) (x y : Z) : Z :=
  (y - Y (Min (Rect p))) * Stride p + (x - X (Min (Rect p))) * 4.

Definition byte_at (pix : list Z) (i : Z) : Z :=
  default 0 (pix !! Z.to_nat i).

(** [p.RGBAAt(x, y)]: the zero colour outside [Rect]. *)
Definition RGBAAt (p : RGBA) (x y : Z) : RGBA8 :=
  if PIn (mkPoint x y) (Rect p) then
    let i := PixOffset p x y in
    mkRGBA8 (byte_at (Pix p) i) (byte_at (Pix p) (i + 1))
            (byte_at (Pix p) (i + 2)) (byte_at (Pix p) (i + 3))
  else mkRGBA8 0 0 0 0.

(** [image.NewRGBA(r)]: a zeroed buffer of [4 * Dx * Dy] bytes. (Go panics
    for a rectangle of negative width or height; no [Bounds()] of an image
    is one.) *)
Definition NewRGBA (r : Rectangle) : RGBA :=
  mkRGBA (replicate (Z.to_nat (4 * Dx r * Dy r)) 0) (4 * Dx r) r.

(** A value of the interface type [image.Image]: either an [*image.RGBA], or
    an image of any other type (Gray16, NRGBA64, Paletted, ...), given by its
    [Bounds()] and by what [At(x, y).RGBA()] returns. *)
Inductive Image :=
| RGBAImage (p : RGBA)
| OtherImage (bounds : Rectangle) (at16 : Z -> Z -> Color).

Definition Bounds (m : Image) : Rectangle :=
  match m with
  | RGBAImage p => Rect p
  | OtherImage b _ => b
  end.

(** [m.At(x, y).RGBA()] *)
Definition At (m : Image) (x y : Z) : Color :=
  match m with
  | RGBAImage p => RGBA8_RGBA (RGBAAt p x y)
  | OtherImage _ f => f x y
  end.

(** *** Package [image/draw] *)

(** Store one pixel, as the inner loop of [draw.Draw] does for [draw.Src]:
    [d := dst.Pix[i : i+4]; d[0] = uint8(sr >> 8); ...]. *)
Definition store (dst : RGBA) (x y : Z) (c : Color) : RGBA :=
  let i := Z.to_nat (PixOffset dst x y) in
  let c8 := to_RGBA8 c in
  mkRGBA (<[(i + 3)%nat := A8 c8]>
          (<[(i + 2)%nat := B8 c8]>
           (<[(i + 1)%nat := G8 c8]>
            (<[i := R8 c8]> (Pix dst)))))
         (Stride dst) (Rect dst).

(** [clip]: restrict [r] to the destination and to the source (moved so that
    [sp] lies on [r.Min]). *)
Definition clip (dst : RGBA) (r : Rectangle) (src : Image) (sp : Point) : Rectangle :=
  Intersect (Intersect r (Rect dst)) (RAdd (Bounds src) (PSub (Min r) sp)).

(** [draw.Draw(dst, r, src, sp, draw.Src)]: aligns [r.Min] in [dst] with [sp]
    in [src] and replaces the pixels of the clipped [r], row by row. *)
Definition Draw (dst : RGBA) (r : Rectangle) (src : Image) (sp : Point) : RGBA :=
  let r' := clip dst r src sp in
  if Empty r' then dst
  else
    foldl (fun d y =>
             foldl (fun d x =>
                      store d x y
                        (At src (x - X (Min r) + X sp) (y - Y (Min r) + Y sp)))
                   d (seqZ (X (Min r')) (Dx r')))
          dst (seqZ (Y (Min r')) (Dy r')).

(** A value of type [uint8]. *)
Definition is_byte (v : Z) : Prop := 0 <= v < 256.

(** The layout [image.NewRGBA] gives a buffer: rows are adjacent and the
    buffer holds exactly the pixels of [Rect]. *)
Definition packed (p : RGBA) : Prop :=
  Stride p = 4 * Dx (Rect p) /\
  Z.of_nat (length (Pix p)) = 4 * Dx (Rect p) * Dy (Rect p).

(** An already normalized bitmap: an [*image.RGBA], which is the RGBA
    layout, over a well-formed rectangle, its channels 8 bits each. Nothing
    is asked of [Stride]: the rows may lie apart, as in what [SubImage]
    returns. *)
Definition normalized (p : RGBA) : Prop :=
  WellFormed (Rect p) /\ Forall is_byte (Pix p).

End Img.

Import Img.

(* ===================================================================== *)
(** ** The program *)
(* ===================================================================== *)

Module Repo.

(** Go's [error] values are carried by their message. *)
Definition error := string.
Definition bytes := list Z.

(** The configurable constants of [main.go]. The URL template has one [%d]
    slot: [url_prefix] is the text before it and [url_suffix] the text
    after it. *)
Record Config := mkConfig {
  url_prefix : string;
  url_suffix : string;
  FirstImageIndex : Z;
  LastImageIndex : Z;
  WorkerCount : Z
}.

(** The constants as they stand in the source. *)
Definition source_config : Config := mkConfig "XX/" ".XX" 1 56 10.

(** [fmt.Sprintf(ImageURLTemplate, index)] *)
Definition ImageURL (cfg : Config) (index : Z) : string :=
  url_prefix cfg +:+ pretty index +:+ url_suffix cfg.

(** What the program reaches outside its own code: the network, the image
    decoders registered by the imports ([image/png], and the PNG, JPEG and
    GIF decoders [gofpdf] brings in), the PNG encoder, and the memory of the
    machine: [memory_for n] tells whether the run time gets a channel with
    a buffer of [n] bytes, header included, from the allocator. *)
Class World := mkWorld {
  http_Get : string -> bytes + error;
  image_Decode : bytes -> Image + error;
  png_Encode : Image -> bytes + error;
  memory_for : Z -> bool
}.

(** *** The run time: [make(chan T, size)]

    [runtime.makechan] panics with [makechan: size out of range] unless
    [size] is non-negative and the buffer, [size] elements of [sizeof(T)]
    bytes each, stays under the allocator's limit together with the header
    of the channel: [mem > maxAlloc - hchanSize] panics. The header has a
    few dozen bytes, how many depends on the version of the run time; a
    buffer of [maxAlloc] bytes or more is refused by all of them. The limit
    is that of the 64-bit platforms, [1 << 48]. Below it, [memory_for]
    decides. *)
Definition maxAlloc : Z := 2 ^ 48.

(** An [int] takes 8 bytes; an [ImageData] an [int] and two interface
    values of two words each. *)
Definition sizeof_int : Z := 8.
Definition sizeof_ImageData : Z := 40.

Definition makechan_in_range (elemsize size : Z) : bool :=
  (0 <=? size) && (elemsize * size <? maxAlloc).

(** The largest size [makechan] can let through for both channels. *)
Definition chan_limit : Z := (maxAlloc - 1) / sizeof_ImageData.

(** The methods of [gofpdf.Fpdf] the program calls. *)
Class PdfBuilder (Fpdf : Type) := mkPdfBuilder {
  gofpdf_New : string -> string -> string -> string -> Fpdf;
  AddPage : Fpdf -> Fpdf;
  RegisterImageReader : Fpdf -> string -> string -> bytes -> Fpdf;
  (** [pdf.Image(name, x, y, w, h, false, "", 0, "")] *)
  PlaceImage : Fpdf -> string -> Q -> Q -> Q -> Q -> Fpdf;
  (** [pdf.OutputFileAndClose(name)] works on the document in place: it
      closes it, which puts a blank page into a document that has none, and
      writes the file. The document after the call comes back with the
      error. *)
  OutputFileAndClose : Fpdf -> string -> Fpdf * option error
}.

(** [ImageData] holds image and index info for proper ordering. A [nil]
    image or error is [None]. *)
Record ImageData := mkImageData {
  Index : Z;
  Image_ : option Image;
  Error : option error
}.

(** [convertTo8Bit] ensures the image is 8-bit. *)
Definition convertTo8Bit (img : Image) : Image :=
  let rgba := NewRGBA (Bounds img) in
  RGBAImage (Draw rgba (Rect rgba) img ZP).

(** The rectangle [convertTo8Bit] draws into: its frame, cut down to where
    the source has pixels once the frame's corner is laid on the source's
    point (0, 0). *)
Definition drawn (img : Image) : Rectangle :=
  clip (NewRGBA (Bounds img)) (Bounds img) img ZP.

(** [convertTo8Bit] changes no pixel of [p]: same bounds, and the same
    colour at every coordinate of the bounds. *)
Definition unchanged_by_convertTo8Bit (p : RGBA) : Prop :=
  Bounds (convertTo8Bit (RGBAImage p)) = Rect p /\
  forall x y, PIn (mkPoint x y) (Rect p) = true ->
    At (convertTo8Bit (RGBAImage p)) x y = At (RGBAImage p) x y.

(** The name under which [AddImageToPDF] registers the image of [index]:
    [fmt.Sprintf("image_%d.png", index)]. *)
Definition image_name (index : Z) : string :=
  "image_" +:+ pretty index +:+ ".png".

(** Exactly one of the image and the error of a result is set. *)
Definition populated_once (d : ImageData) : Prop :=
  (is_Some (Image_ d) /\ Error d = None) \/
  (Image_ d = None /\ is_Some (Error d)).

Section Program.

Context {W : World} {Fpdf : Type} {B : PdfBuilder Fpdf}.
Variable cfg : Config.

Abbreviation first_index := (FirstImageIndex cfg).
Abbreviation last_index := (LastImageIndex cfg).

(** [DownloadImage] downloads an image and converts it to 8-bit depth. *)
Definition DownloadImage (url : string) : option Image * option error :=
  match http_Get url with
  | inr err => (None, Some ("failed to download image: " +:+ err))
  | inl body =>
      match image_Decode body with
      | inr err => (None, Some ("failed to decode image: " +:+ err))
      | inl img => (Some (convertTo8Bit img), None)
      end
  end.

(** [AddImageToPDF] adds an image to the PDF with a unique identifier. The
    document is passed in and handed back. *)
Definition AddImageToPDF (pdf : Fpdf) (img : Image) (index : Z) : Fpdf * option error :=
  match png_Encode img with
  | inr err => (pdf, Some ("failed to encode image: " +:+ err))
  | inl imgBuffer =>
      let pdf := AddPage pdf in
      let width := (inject_Z (Dx (Bounds img)) / 4)%Q in
      let height := (inject_Z (Dy (Bounds img)) / 4)%Q in
      let imageName := "image_" +:+ pretty index +:+ ".png" in
      let pdf := RegisterImageReader pdf imageName "PNG" imgBuffer in
      let pdf := PlaceImage pdf imageName 10 10 width height in
      (pdf, None)
  end.

(** *** Goroutines *)

(** Where a worker goroutine stands: at the receive of [for index := range
    jobs], at the send [results <- ImageData{...}], or returned. *)
Inductive WorkerPc :=
| WRecv
| WSend (d : ImageData)
| WExited.

Record Worker := mkWorker { wid : Z; wpc : WorkerPc }.

(** The goroutine [go func() { wg.Wait(); close(results) }()]. *)
Inductive WaiterPc := WtNotStarted | WtWait | WtDone.

(** Where [main] stands. *)
Inductive MainPc :=
| MMake                 (* the two [make(chan ...)] *)
| MSpawn (i : Z)        (* [for i := 1; i <= WorkerCount; i++] *)
| MProduce (i : Z)      (* [for i := FirstImageIndex; ...] sending jobs *)
| MClose                (* [close(jobs)] *)
| MGo                   (* [go func() {...}()] and [make(map...)] *)
| MCollect              (* [for data := range results] *)
| MBuild (i : Z)        (* [for i := FirstImageIndex; ...] adding pages *)
| MSave                 (* [pdf.OutputFileAndClose] *)
| MPrint                (* the last [fmt.Println] *)
| MExit                 (* [main] returned *)
| MPanic.               (* the process died: a run-time panic or no memory *)


Inductive Thread := TMain | TWorker (k : nat) | TWaiter.

#[global] Instance Thread_eq_dec : EqDecision Thread.
Proof. solve_decision. Defined.

(** The state of the process. [fetched], [published], [arrived] and [built]
    record what happened (the calls of [DownloadImage], the sends on
    [results], the receives from it, the calls of [AddImageToPDF]); the
    program does not read them. *)
Record State := mkState {
  pc : MainPc;
  workers : list Worker;
  waiter : WaiterPc;
  jobs_buf : list Z;
  jobs_closed : bool;
  results_buf : list ImageData;
  results_closed : bool;
  wg : Z;
  imageMap : gmap Z (option Image);
  pdf : Fpdf;
  stdout : list string;
  fetched : list Z;
  published : list ImageData;
  arrived : list ImageData;
  built : list (Z * Image)
}.

(** The capacity given to both channels. *)
Definition capacity : Z := last_index - first_index + 1.

(** Whether the two [make(chan ...)] of lines 89 and 90 go through: the size
    is in the range [makechan] accepts for [chan int] and for
    [chan ImageData], and the machine has the memory for both buffers. (A
    constant size that is negative or does not fit an [int] is already
    refused by the compiler.) *)
Definition channels_made : bool :=
  makechan_in_range sizeof_int capacity &&
  makechan_in_range sizeof_ImageData capacity &&
  memory_for (sizeof_int * capacity) &&
  memory_for (sizeof_ImageData * capacity).

Definition init : State :=
  mkState MMake [] WtNotStarted [] false [] false 0 ∅
          (gofpdf_New "P" "mm" "A4" "") [] [] [] [] [].

(** Field updates. *)
Definition set_pc (v : MainPc) (s : State) : State :=
  mkState v (workers s) (waiter s) (jobs_buf s) (jobs_closed s)
          (results_buf s) (results_closed s) (wg s) (imageMap s) (pdf s)
          (stdout s) (fetched s) (published s) (arrived s) (built s).
Definition set_workers (v : list Worker) (s : State) : State :=
  mkState (pc s) v (waiter s) (jobs_buf s) (jobs_closed s)
          (results_buf s) (results_closed s) (wg s) (imageMap s) (pdf s)
          (stdout s) (fetched s) (published s) (arrived s) (built s).
Definition set_waiter (v : WaiterPc) (s : State) : State :=
  mkState (pc s) (workers s) v (jobs_buf s) (jobs_closed s)
          (results_buf s) (results_closed s) (wg s) (imageMap s) (pdf s)
          (stdout s) (fetched s) (published s) (arrived s) (built s).
Definition set_jobs_buf (v : list Z) (s : State) : State :=
  mkState (pc s) (workers s) (waiter s) v (jobs_closed s)
          (results_buf s) (results_closed s) (wg s) (imageMap s) (pdf s)
          (stdout s) (fetched s) (published s) (arrived s) (built s).
Definition set_jobs_closed (v : bool) (s : State) : State :=
  mkState (pc s) (workers s) (waiter s) (jobs_buf s) v
          (results_buf s) (results_closed s) (wg s) (imageMap s) (pdf s)
          (stdout s) (fetched s) (published s) (arrived s) (built s).
Definition set_results_buf (v : list ImageData) (s : State) : State :=
  mkState (pc s) (workers s) (waiter s) (jobs_buf s) (jobs_closed s)
          v (results_closed s) (wg s) (imageMap s) (pdf s)
          (stdout s) (fetched s) (published s) (arrived s) (built s).
Definition set_results_closed (v : bool) (s : State) : State :=
  mkState (pc s) (workers s) (waiter s) (jobs_buf s) (jobs_closed s)
          (results_buf s) v (wg s) (imageMap s) (pdf s)
          (stdout s) (fetched s) (published s) (arrived s) (built s).
Definition set_wg (v : Z) (s : State) : State :=
  mkState (pc s) (workers s) (waiter s) (jobs_buf s) (jobs_closed s)
          (results_buf s) (results_closed s) v (imageMap s) (pdf s)
          (stdout s) (fetched s) (published s) (arrived s) (built s).
Definition set_imageMap (v : gmap Z (option Image)) (s : State) : State :=
  mkState (pc s) (workers s) (waiter s) (jobs_buf s) (jobs_closed s)
          (results_buf s) (results_closed s) (wg s) v (pdf s)
          (stdout s) (fetched s) (published s) (arrived s) (built s).
Definition set_pdf (v : Fpdf) (s : State) : State :=
  mkState (pc s) (workers s) (waiter s) (jobs_buf s) (jobs_closed s)
          (results_buf s) (results_closed s) (wg s) (imageMap s) v
          (stdout s) (fetched s) (published s) (arrived s) (built s).
Definition set_stdout (v : list string) (s : State) : State :=
  mkState (pc s) (workers s) (waiter s) (jobs_buf s) (jobs_closed s)
          (results_buf s) (results_closed s) (wg s) (imageMap s) (pdf s)
          v (fetched s) (published s) (arrived s) (built s).
Definition set_fetched (v : list Z) (s : State) : State :=
  mkState (pc s) (workers s) (waiter s) (jobs_buf s) (jobs_closed s)
          (results_buf s) (results_closed s) (wg s) (imageMap s) (pdf s)
          (stdout s) v (published s) (arrived s) (built s).
Definition set_published (v : list ImageData) (s : State) : State :=
  mkState (pc s) (workers s) (waiter s) (jobs_buf s) (jobs_closed s)
          (results_buf s) (results_closed s) (wg s) (imageMap s) (pdf s)
          (stdout s) (fetched s) v (arrived s) (built s).
Definition set_arrived (v : list ImageData) (s : State) : State :=
  mkState (pc s) (workers s) (waiter s) (jobs_buf s) (jobs_closed s)
          (results_buf s) (results_closed s) (wg s) (imageMap s) (pdf s)
          (stdout s) (fetched s) (published s) v (built s).
Definition set_built (v : list (Z * Image)) (s : State) : State :=
  mkState (pc s) (workers s) (waiter s) (jobs_buf s) (jobs_closed s)
          (results_buf s) (results_closed s) (wg s) (imageMap s) (pdf s)
          (stdout s) (fetched s) (published s) (arrived s) v.

(** [fmt.Printf]/[fmt.Println] write one line to standard output. *)
Definition print (line : string) (s : State) : State :=
  set_stdout (stdout s ++ [line]) s.

(** The lines the program prints. *)
Definition progress_line (id index : Z) : string :=
  "Worker " +:+ pretty id +:+ ": Downloading image " +:+ pretty index +:+ "...".
Definition download_error_line (index : Z) (err : error) : string :=
  "Error downloading image " +:+ pretty index +:+ ": " +:+ err.
Definition add_error_line (i : Z) (err : error) : string :=
  "Error adding image " +:+ pretty i +:+ " to PDF: " +:+ err.
Definition save_error_line (err : error) : string :=
  "Error saving PDF: " +:+ err.
Definition success_line : string :=
  "PDF created successfully as final_output.pdf".

(** *** [worker] *)

(** The [ImageData] a worker builds for [index]:
    [img, err := DownloadImage(url)] tagged with the index. *)
Definition fetch (index : Z) : ImageData :=
  let '(img, err) := DownloadImage (ImageURL cfg index) in
  mkImageData index img err.

Definition set_worker (k : nat) (w : Worker) (s : State) : State :=
  set_workers (<[k := w]> (workers s)) s.

(** One step of the worker goroutine at position [k] of [workers]. [None]
    means the goroutine is blocked (or has returned).
    - At the receive: take the next index off [jobs], print the progress
      line, call [DownloadImage] and go to the send; when [jobs] is closed
      and drained, leave the loop and run the deferred [wg.Done()].
    - At the send: a send on a closed channel panics; otherwise the value
      is queued if the buffer has room. (With capacity 0 a send would need a
      receiver at the same moment; the range is empty then and nothing is
      ever sent.) *)
Definition worker_step (k : nat) (w : Worker) (s : State) : option State :=
  match wpc w with
  | WRecv =>
      match jobs_buf s with
      | index :: rest =>
          Some (set_worker k (mkWorker (wid w) (WSend (fetch index)))
               (set_fetched (fetched s ++ [index])
               (print (progress_line (wid w) index)
               (set_jobs_buf rest s))))
      | [] =>
          if jobs_closed s
          then Some (set_worker k (mkWorker (wid w) WExited)
                    (set_wg (wg s - 1) s))
          else None
      end
  | WSend d =>
      if results_closed s then Some (set_pc MPanic s)
      else if Z.of_nat (length (results_buf s)) <? capacity
      then Some (set_worker k (mkWorker (wid w) WRecv)
                (set_published (published s ++ [d])
                (set_results_buf (results_buf s ++ [d]) s)))
      else None
  | WExited => None
  end.

(** *** The goroutine that seals [results] *)

(** [wg.Wait()] returns once the counter is zero; then [close(results)]. *)
Definition waiter_step (s : State) : option State :=
  match waiter s with
  | WtWait =>
      if wg s =? 0
      then Some (set_waiter WtDone (set_results_closed true s))
      else None
  | _ => None
  end.

(** *** [main] *)

(** The body of [for data := range results]. *)
Definition collect_one (data : ImageData) (s : State) : State :=
  match Error data with
  | Some err =>
      print (download_error_line (Index data) err) s
  | None => set_imageMap (<[Index data := Image_ data]> (imageMap s)) s
  end.

(** The body of the loop that adds the images to the PDF in order. A [nil]
    image in the map makes [png.Encode] panic. *)
Definition build_one (i : Z) (s : State) : State :=
  match imageMap s !! i with
  | Some (Some img) =>
      let '(pdf', err) := AddImageToPDF (pdf s) img i in
      let s := set_built (built s ++ [(i, img)]) (set_pdf pdf' s) in
      match err with
      | Some e => print (add_error_line i e) s
      | None => s
      end
  | Some None => set_pc MPanic s
  | None => s
  end.

Definition advance (p : MainPc) (s : State) : State :=
  match pc s with
  | MPanic => s
  | _ => set_pc p s
  end.

(** One step of [main]. *)
Definition main_step (s : State) : option State :=
  match pc s with
  | MMake =>
      (* Where a [make] does not go through the process dies: of the panic
         of [makechan], or of the allocator running out of memory. There is
         no run beyond this point. *)
      if channels_made
      then Some (set_pc (MSpawn 1) s)
      else Some (set_pc MPanic s)
  | MSpawn i =>
      if i <=? WorkerCount cfg
      then Some (set_pc (MSpawn (int_incr i))
                (set_workers (workers s ++ [mkWorker i WRecv])
                (set_wg (wg s + 1) s)))
      else Some (set_pc (MProduce first_index) s)
  | MProduce i =>
      if i <=? last_index
      then if Z.of_nat (length (jobs_buf s)) <? capacity
           then Some (set_pc (MProduce (int_incr i))
                     (set_jobs_buf (jobs_buf s ++ [i]) s))
           else None
      else Some (set_pc MClose s)
  | MClose => Some (set_pc MGo (set_jobs_closed true s))
  | MGo => Some (set_pc MCollect (set_imageMap ∅ (set_waiter WtWait s)))
  | MCollect =>
      match results_buf s with
      | data :: rest =>
          Some (collect_one data
               (set_arrived (arrived s ++ [data]) (set_results_buf rest s)))
      | [] =>
          if results_closed s then Some (set_pc (MBuild first_index) s) else None
      end
  | MBuild i =>
      if i <=? last_index
      then Some (advance (MBuild (int_incr i)) (build_one i s))
      else Some (set_pc MSave s)
  | MSave =>
      let '(closed, err) := OutputFileAndClose (pdf s) "final_output.pdf" in
      match err with
      | Some e => Some (set_pc MPrint (print (save_error_line e) (set_pdf closed s)))
      | None => Some (set_pc MPrint (set_pdf closed s))
      end
  | MPrint =>
      Some (set_pc MExit (print success_line s))
  | MExit => None
  | MPanic => None
  end.


(** *** The collector as a function of what arrives *)

(** What [for data := range results] leaves in [imageMap] for one result. *)
Definition collect_entry (m : gmap Z (option Image)) (data : ImageData)
  : gmap Z (option Image) :=
  match Error data with
  | Some _ => m
  | None => <[Index data := Image_ data]> m
  end.

Definition collect (arrivals : list ImageData) : gmap Z (option Image) :=
  foldl collect_entry ∅ arrivals.

(** The pairs the ordered loop hands to [AddImageToPDF] while it walks the
    indices [ids]. *)
Definition ordered (m : gmap Z (option Image)) (ids : list Z) : list (Z * Image) :=
  omap (fun i => match m !! i with
                 | Some (Some img) => Some (i, img)
                 | _ => None
                 end) ids.

(** The document after [AddImageToPDF] has been called on each pair. *)
Definition pages (calls : list (Z * Image)) : Fpdf :=
  foldl (fun d c => (AddImageToPDF d c.2 c.1).1) (gofpdf_New "P" "mm" "A4" "") calls.

(** The file [OutputFileAndClose] is asked to write, and what the call
    leaves of the document and reports. *)
Definition saved (calls : list (Z * Image)) : Fpdf * option error :=
  OutputFileAndClose (pages calls) "final_output.pdf".

(** The document at each point of [main]: the pages added so far, closed
    once [OutputFileAndClose] has run. *)
Definition document (p : MainPc) (calls : list (Z * Image)) : Fpdf :=
  match p with
  | MPrint | MExit => (saved calls).1
  | _ => pages calls
  end.

(** The collector on its own: [main] standing at [for data := range
    results] with [results] already holding [arrivals] and sealed. *)
Definition collector_fed (arrivals : list ImageData) : State :=
  mkState MCollect [] WtDone [] true arrivals true 0 ∅
          (gofpdf_New "P" "mm" "A4" "") [] [] arrivals [] [].

(** *** Configurations and invariants *)

(** The constants fit an [int] and the loop counters cannot overflow. *)
Definition ValidConfig : Prop :=
  int_min <= first_index /\ last_index < int_max /\ WorkerCount cfg < int_max.

Definition is_exited (w : Worker) : bool :=
  match wpc w with WExited => true | _ => false end.

(** The result a worker holds while it stands at its send. *)
Definition held (w : Worker) : list ImageData :=
  match wpc w with WSend d => [d] | _ => [] end.

(** The workers that have not returned. *)
Definition alive (ws : list Worker) : nat :=
  length (filter (fun w => is_exited w = false) ws).

(** The results held by workers standing at their send. *)
Definition sending (ws : list Worker) : list ImageData :=
  omap (fun w => match wpc w with WSend d => Some d | _ => None end) ws.

Definition phase (p : MainPc) : nat :=
  match p with
  | MMake => 0 | MSpawn _ => 1 | MProduce _ => 2 | MClose => 3 | MGo => 4
  | MCollect => 5 | MBuild _ => 6 | MSave => 7 | MPrint => 8 | MExit => 9
  | MPanic => 10
  end.

(** How many indices [main] has put on [jobs]. *)
Definition produced (p : MainPc) : Z :=
  match p with
  | MMake | MSpawn _ => 0
  | MProduce i => i - first_index
  | _ => capacity
  end.

(** How many indices the ordered loop has gone past. *)
Definition visited (p : MainPc) : Z :=
  match p with
  | MBuild i => i - first_index
  | MSave | MPrint | MExit => capacity
  | _ => 0
  end.

Definition spawned (p : MainPc) : Z :=
  match p with
  | MMake => 0
  | MSpawn i => i - 1
  | _ => Z.max 0 (WorkerCount cfg)
  end.

Definition save_report (r : option error) : list string :=
  match r with
  | Some err => [save_error_line err]
  | None => []
  end.

(** Where the loop counters of [main] can be. *)
Definition counter_ok (p : MainPc) : Prop :=
  match p with
  | MSpawn i => 1 <= i /\ i - 1 <= Z.max 0 (WorkerCount cfg)
  | MProduce i | MBuild i => first_index <= i <= last_index + 1
  | _ => True
  end.

Record InvMain (s : State) : Prop := mkInvMain {
  im_start : pc s = MMake -> s = init;
  im_made : (1 <= phase (pc s))%nat -> channels_made = true;
  im_cap : (1 <= phase (pc s))%nat -> 0 <= capacity <= chan_limit;
  im_counter : counter_ok (pc s);
  im_workers : Z.of_nat (length (workers s)) = spawned (pc s);
  im_wids : forall k w, workers s !! k = Some w -> wid w = Z.of_nat k + 1;
  im_jobs_closed : jobs_closed s = true <-> (4 <= phase (pc s))%nat;
  im_waiter : waiter s = WtNotStarted <-> (phase (pc s) <= 4)%nat
}.

Record InvWorkers (s : State) : Prop := mkInvWorkers {
  iw_wg : wg s = Z.of_nat (alive (workers s));
  iw_drained : forall w, w ∈ workers s -> is_exited w = true ->
               jobs_closed s = true /\ jobs_buf s = [];
  iw_closed : results_closed s = true <-> waiter s = WtDone;
  iw_sealed : results_closed s = true -> alive (workers s) = 0%nat
}.

Record InvFlow (s : State) : Prop := mkInvFlow {
  if_queue : fetched s ++ jobs_buf s = seqZ first_index (produced (pc s));
  if_pub : published s = arrived s ++ results_buf s;
  if_fetched : fetched s ≡ₚ Index <$> (published s ++ sending (workers s));
  if_tagged : Forall (fun d => d = fetch (Index d)) (published s ++ sending (workers s))
}.

Record InvCollect (s : State) : Prop := mkInvCollect {
  ic_early : (phase (pc s) <= 4)%nat -> arrived s = [];
  ic_map : imageMap s = collect (arrived s);
  ic_done : (6 <= phase (pc s))%nat -> results_closed s = true /\ results_buf s = [];
  ic_built : built s = ordered (imageMap s) (seqZ first_index (visited (pc s)));
  ic_pdf : pdf s = document (pc s) (built s)
}.

Record InvOut (s : State) : Prop := mkInvOut {
  io_download : forall d err, d ∈ arrived s -> Error d = Some err ->
                download_error_line (Index d) err ∈ stdout s;
  io_add : forall i img err, (i, img) ∈ built s -> png_Encode img = inr err ->
           add_error_line i ("failed to encode image: " +:+ err) ∈ stdout s;
  io_save : pc s = MPrint ->
            exists pre, stdout s = pre ++ save_report (saved (built s)).2;
  io_exit : pc s = MExit ->
            exists pre, stdout s = pre ++ save_report (saved (built s)).2
                                        ++ [success_line]
}.

(** The invariant of the process. A process that died is one whose channels
    could not be made, before anything else happened. *)
Definition Inv (s : State) : Prop :=
  match pc s with
  | MPanic => channels_made = false /\ s = set_pc MPanic init
  | _ => InvMain s /\ InvWorkers s /\ InvFlow s /\ InvCollect s /\ InvOut s
  end.

(** The loop that adds the pages is over. *)
Definition after_build (p : MainPc) : Prop :=
  p = MSave \/ p = MPrint \/ p = MExit.

(** Whether [png.Encode] accepts the image of a call. *)
Definition encodes (c : Z * Image) : bool :=
  match png_Encode c.2 with inl _ => true | inr _ => false end.

(** Facts that hold in every state the process can be in. *)
Record Facts (s : State) : Prop := mkFacts {
  fa_queue : fetched s ++ jobs_buf s = seqZ first_index (produced (pc s))
             \/ (pc s = MPanic /\ fetched s = [] /\ jobs_buf s = []);
  fa_range : forall i, i ∈ fetched s -> first_index <= i <= last_index;
  fa_fetched : fetched s ≡ₚ Index <$> (published s ++ sending (workers s));
  fa_tagged : Forall (fun d => d = fetch (Index d)) (published s ++ sending (workers s));
  fa_pub : published s = arrived s ++ results_buf s;
  fa_map : imageMap s = collect (arrived s);
  fa_built : built s = ordered (imageMap s) (seqZ first_index (visited (pc s)));
  fa_pdf : pdf s = document (pc s) (built s);
  fa_sealed : results_closed s = true ->
              alive (workers s) = 0%nat /\
              Z.of_nat (length (workers s)) = Z.max 0 (WorkerCount cfg) /\
              wg s = 0 /\ jobs_closed s = true /\
              fetched s ++ jobs_buf s = seqZ first_index capacity /\
              (1 <= WorkerCount cfg -> jobs_buf s = [])
}.

(** A bound on the number of steps the process can still take. *)
Definition main_fuel (p : MainPc) : nat :=
  match p with
  | MMake => 10 + 2 * Z.to_nat (WorkerCount cfg) + 4 * Z.to_nat capacity
                + Z.to_nat capacity
  | MSpawn i => 9 + 2 * Z.to_nat (WorkerCount cfg - i + 1) + 4 * Z.to_nat capacity
                  + Z.to_nat capacity
  | MProduce i => 8 + 4 * Z.to_nat (last_index - i + 1) + Z.to_nat capacity
  | MClose => 7 + Z.to_nat capacity
  | MGo => 6 + Z.to_nat capacity
  | MCollect => 4 + Z.to_nat capacity
  | MBuild i => 3 + Z.to_nat (last_index - i + 1)
  | MSave => 2
  | MPrint => 1
  | MExit => 0
  | MPanic => 0
  end.

Definition measure (s : State) : nat :=
  main_fuel (pc s) + 3 * length (jobs_buf s) + 2 * length (sending (workers s))
  + length (results_buf s) + alive (workers s)
  + match waiter s with WtWait => 1 | _ => 0 end.

(** *** The whole process *)

Definition running (s : State) : bool :=
  match pc s with
  | MExit | MPanic => false
  | _ => true
  end.

(** One step of thread [t]; nothing runs once [main] has returned or the
    process has panicked. *)
Definition step (t : Thread) (s : State) : option State :=
  if running s then
    match t with
    | TMain => main_step s
    | TWorker k =>
        match workers s !! k with
        | Some w => worker_step k w s
        | None => None
        end
    | TWaiter => waiter_step s
    end
  else None.

(** Run a schedule; a thread that cannot move when it is picked is passed
    over. *)
Definition exec (sched : list Thread) (s : State) : State :=
  foldl (fun s t => default s (step t s)) s sched.

Definition steps (s s' : State) : Prop := exists t, step t s = Some s'.

(** The states the process can be in. *)
Definition reachable (s : State) : Prop := rtc steps init s.

(** A run of the whole program under a schedule. *)
Definition run (sched : list Thread) : State := exec sched init.

(** The collector run on its own for [n] steps of [main]. *)
Definition collector_run (n : nat) (arrivals : list ImageData) : State :=
  exec (replicate n TMain) (collector_fed arrivals).

(** What of a state decides the pages that come out. *)
Definition view (s : State)
  : MainPc * gmap Z (option Image) * list (Z * Image) * Fpdf
    * list ImageData * bool :=
  (pc s, imageMap s, built s, pdf s, results_buf s, results_closed s).

(** *** What a finished run has done, read off the downloads alone *)

(** The pairs a finished run has handed to [AddImageToPDF]: the indices of
    the range in ascending order, each with its downloaded image, the
    failed ones left out. *)
Definition expected_output : list (Z * Image) :=
  omap (fun i => match DownloadImage (ImageURL cfg i) with
                 | (Some img, None) => Some (i, img)
                 | _ => None
                 end) (seqZ first_index capacity).

(** What the printed lines tell: every index fetched so far was announced
    by one of the workers started so far, and the last line of the program
    is not printed before [main] is over. *)
Record InvLines (s : State) : Prop := mkInvLines {
  il_progress : forall i, i ∈ fetched s ->
                exists id, 1 <= id <= Z.of_nat (length (workers s)) /\
                           progress_line id i ∈ stdout s;
  il_success : success_line ∈ stdout s -> pc s = MExit
}.

(** Where [main] can be when [LastImageIndex] is the largest [int]. *)
Definition before_close (s : State) : Prop :=
  match pc s with
  | MMake | MSpawn _ | MPanic => True
  | MProduce i => i <= int_max
  | _ => False
  end.

(** What holds while [main] has not closed [jobs]. *)
Definition not_closed_yet (s : State) : Prop :=
  before_close s /\ jobs_closed s = false /\ results_closed s = false /\
  waiter s = WtNotStarted /\ built s = [].

End Program.

#[global] Arguments channels_made : simpl never.
End Repo.

Import Repo.

(* ===================================================================== *)
(** ** A small concrete instance *)
(* ===================================================================== *)

(** Stand-ins for the network, the codecs and the PDF library, to run the
    program on: index 2 cannot be downloaded, index 4 is not an image, index
    3 is an image without pixels (which the PNG encoder rejects), every
    other index is a 2 x 2 image of one colour. *)
Module Demo.

Definition codes (str : string) : bytes :=
  (fun a => Z.of_nat (Ascii.nat_of_ascii a)) <$> list_ascii_of_string str.

Definition solid (c : Z) : Image :=
  OtherImage (mkRect ZP (mkPoint 2 2)) (fun _ _ => mkColor (c * 257) 0 0 65535).

Definition blank : Image :=
  OtherImage (mkRect ZP ZP) (fun _ _ => mkColor 0 0 0 0).

Definition stub_world : World :=
  mkWorld
    (fun url => if decide (url = "XX/2.XX") then inr "connection refused"
                else inl (codes url))
    (fun body => match body !! 3%nat with
                 | Some 52 => inr "image: unknown format"
                 | Some 51 => inl blank
                 | Some c => inl (solid c)
                 | None => inr "unexpected EOF"
                 end)
    (fun img => if Empty (Bounds img) then inr "invalid image size"
                else inl [Dx (Bounds img); Dy (Bounds img)])
    (fun n => n <=? 2 ^ 30).

(** A document is the list of its pages, a page the names of the images
    placed on it. Closing a document without a page gives it a blank one;
    the write then fails or not. *)
Definition stub_builder (write_error : option error) : PdfBuilder (list (list string)) :=
  mkPdfBuilder _
    (fun _ _ _ _ => [])
    (fun doc => doc ++ [[]])
    (fun doc _ _ _ => doc)
    (fun doc name _ _ _ _ =>
       match reverse doc with
       | page :: before => reverse before ++ [page ++ [name]]
       | [] => []
       end)
    (fun doc _ => (match doc with [] => [[]] | _ => doc end, write_error)).

(** The builder of the small instance: writing the file fails. *)
Definition small_builder : PdfBuilder (list (list string)) :=
  stub_builder (Some "disk full").

Definition small_config : Config := mkConfig "XX/" ".XX" 1 5 3.

(** A range that is empty by more than one. *)
Definition backwards_config : Config := mkConfig "XX/" ".XX" 3 1 10.

(** A range that is empty by exactly one. *)
Definition empty_config : Config := mkConfig "XX/" ".XX" 3 2 10.

(** A range too long for a channel. *)
Definition huge_config : Config := mkConfig "XX/" ".XX" 1 (2 ^ 50) 10.

(** Every thread in turn, [rounds] times over, for [k] workers. *)
Definition round_robin (k rounds : nat) : list Thread :=
  mjoin (replicate rounds (TMain :: (TWorker <$> seq 0 k) ++ [TWaiter])).

(** An RGBA bitmap whose bounds do not start at the origin. *)
Definition offset_bitmap : RGBA :=
  mkRGBA [1; 2; 3; 4;  5; 6; 7; 8;  9; 10; 11; 12;  13; 14; 15; 16] 8
         (mkRect (mkPoint 1 1) (mkPoint 3 3)).

(** A 2 x 2 frame of another image type whose bounds start at (1,1), as the
    GIF decoder returns for a frame placed off the corner of its canvas. *)
Definition offset_image : Image :=
  OtherImage (mkRect (mkPoint 1 1) (mkPoint 3 3))
             (fun x y => mkColor ((10 * y + x) * 257) 0 0 65535).

(** A world in which every download decodes to that frame. *)
Definition frame_world : World :=
  mkWorld (fun url => inl (codes url))
          (fun _ => inl offset_image)
          (fun img => if Empty (Bounds img) then inr "invalid image size"
                      else inl [Dx (Bounds img); Dy (Bounds img)])
          (fun n => n <=? 2 ^ 30).

Definition origin_bitmap : RGBA :=
  mkRGBA [1; 2; 3; 4;  5; 6; 7; 8;  9; 10; 11; 12;  13; 14; 15; 16] 8
         (mkRect ZP (mkPoint 2 2)).

(** A run of the small instance to its end, the write of the file failing. *)
Definition small_run : State :=
  run (W := stub_world) (B := small_builder) small_config (round_robin 3 30).

(** A run of the instance whose range is empty by one, to its end. *)
Definition empty_run : State :=
  run (W := stub_world) (B := small_builder) empty_config (round_robin 10 30).

(** The results for indices 1, 3 and 5 of the small instance, and the same
    in another order. *)
Definition some_results : list ImageData :=
  [fetch (W := stub_world) small_config 1;
   fetch (W := stub_world) small_config 3;
   fetch (W := stub_world) small_config 5].

Definition shuffled_results : list ImageData :=
  [fetch (W := stub_world) small_config 5;
   fetch (W := stub_world) small_config 1;
   fetch (W := stub_world) small_config 3].

(** No worker at all. *)
Definition no_worker_config : Config := mkConfig "XX/" ".XX" 1 5 0.

Definition no_worker_run : State :=
  run (W := stub_world) (B := small_builder) no_worker_config (round_robin 0 30).

(** A range that ends at the largest [int]. *)
Definition top_config : Config := mkConfig "XX/" ".XX" int_max int_max 3.

(** The same range as [small_config] with a single worker. *)
Definition single_worker_config : Config := mkConfig "XX/" ".XX" 1 5 1.

Definition single_worker_run : State :=
  run (W := stub_world) (B := small_builder) single_worker_config (round_robin 1 40).

End Demo.

(* ===================================================================== *)
(** ** Facts about images and [draw.Draw] *)
(* ===================================================================== *)

Section ImageFacts.

Lemma uint8_byte v : is_byte (uint8 v).
Proof.
  unfold is_byte, uint8. change 255 with (Z.ones 8).
  rewrite Z.land_ones by lia. pose proof (Z.mod_pos_bound v (2 ^ 8)). lia.
Qed.

Lemma narrow_byte v : is_byte (narrow v).
Proof. apply uint8_byte. Qed.

Lemma narrow_widen v : is_byte v -> narrow (widen v) = v.
Proof.
  intros Hv. unfold narrow, widen, uint8, is_byte in *.
  rewrite Z.shiftr_lor, Z.shiftr_shiftl_l by lia.
  replace (8 - 8) with 0 by lia. rewrite Z.shiftl_0_r.
  rewrite Z.shiftr_div_pow2 by lia.
  rewrite Z.div_small by lia. rewrite Z.lor_0_l.
  change 255 with (Z.ones 8). rewrite Z.land_ones by lia.
  apply Z.mod_small. lia.
Qed.

Lemma PIn_spec x y r :
  PIn (mkPoint x y) r = true <->
  X (Min r) <= x < X (Max r) /\ Y (Min r) <= y < Y (Max r).
Proof.
  unfold PIn. simpl. rewrite !andb_true_iff, !Z.leb_le, !Z.ltb_lt. lia.
Qed.

Lemma Empty_false r :
  Empty r = false <-> X (Min r) < X (Max r) /\ Y (Min r) < Y (Max r).
Proof.
  unfold Empty. rewrite orb_false_iff, !Z.leb_gt. tauto.
Qed.

Lemma store_Rect d x y c : Rect (store d x y c) = Rect d.
Proof. reflexivity. Qed.

Lemma store_Stride d x y c : Stride (store d x y c) = Stride d.
Proof. reflexivity. Qed.

Lemma store_length d x y c : length (Pix (store d x y c)) = length (Pix d).
Proof. unfold store. simpl. by rewrite !length_insert. Qed.

Lemma store_packed d x y c : packed d -> packed (store d x y c).
Proof.
  unfold packed. rewrite store_Rect, store_Stride, store_length. done.
Qed.

Lemma store_bytes d x y c :
  Forall is_byte (Pix d) -> Forall is_byte (Pix (store d x y c)).
Proof.
  intros H. unfold store. simpl.
  repeat (apply Forall_insert; [|apply narrow_byte]). done.
Qed.

(** The pixel index of a point of [Rect] in a packed buffer. *)
Lemma offset_packed d x y :
  packed d -> PIn (mkPoint x y) (Rect d) = true ->
  exists k, PixOffset d x y = 4 * k /\ 0 <= k /\
            4 * k + 3 < Z.of_nat (length (Pix d)) /\
            k = (y - Y (Min (Rect d))) * Dx (Rect d) + (x - X (Min (Rect d))).
Proof.
  intros [Hs Hl] Hin. apply PIn_spec in Hin.
  exists ((y - Y (Min (Rect d))) * Dx (Rect d) + (x - X (Min (Rect d)))).
  unfold PixOffset. rewrite Hs, Hl. unfold Dx, Dy in *.
  split; [lia|]. split; [nia|]. split; [|done]. nia.
Qed.

Lemma offset_inj d x y x' y' :
  PIn (mkPoint x y) (Rect d) = true ->
  PIn (mkPoint x' y') (Rect d) = true ->
  (y - Y (Min (Rect d))) * Dx (Rect d) + (x - X (Min (Rect d))) =
  (y' - Y (Min (Rect d))) * Dx (Rect d) + (x' - X (Min (Rect d))) ->
  x = x' /\ y = y'.
Proof.
  intros H1 H2 He. apply PIn_spec in H1, H2. unfold Dx in *.
  assert (y = y') as -> by nia. lia.
Qed.

Lemma byte_at_insert_ne pix i j v :
  0 <= j -> i <> Z.to_nat j -> byte_at (<[i := v]> pix) j = byte_at pix j.
Proof. intros. unfold byte_at. by rewrite list_lookup_insert_ne. Qed.

Lemma byte_at_insert_eq pix i v :
  0 <= i < Z.of_nat (length pix) ->
  byte_at (<[Z.to_nat i := v]> pix) i = v.
Proof.
  intros. unfold byte_at. rewrite list_lookup_insert_eq by lia. done.
Qed.

(** Reading back the pixel just stored. *)
Lemma RGBAAt_store_eq d x y c :
  packed d -> PIn (mkPoint x y) (Rect d) = true ->
  RGBAAt (store d x y c) x y = to_RGBA8 c.
Proof.
  intros Hp Hin. destruct (offset_packed d x y Hp Hin) as (k & Hk & Hk0 & Hkl & _).
  unfold RGBAAt. rewrite store_Rect, Hin.
  replace (PixOffset (store d x y c) x y) with (4 * k) by (by rewrite <- Hk).
  unfold store. rewrite Hk. simpl.
  unfold to_RGBA8. f_equal.
  - rewrite !byte_at_insert_ne by lia. apply byte_at_insert_eq. lia.
  - rewrite !byte_at_insert_ne by lia.
    replace (Z.to_nat (4 * k) + 1)%nat with (Z.to_nat (4 * k + 1)) by lia.
    apply byte_at_insert_eq. rewrite length_insert. lia.
  - rewrite !byte_at_insert_ne by lia.
    replace (Z.to_nat (4 * k) + 2)%nat with (Z.to_nat (4 * k + 2)) by lia.
    apply byte_at_insert_eq. rewrite !length_insert. lia.
  - replace (Z.to_nat (4 * k) + 3)%nat with (Z.to_nat (4 * k + 3)) by lia.
    apply byte_at_insert_eq. rewrite !length_insert. lia.
Qed.

(** A store leaves every other pixel as it was. *)
Lemma RGBAAt_store_ne d x y c x' y' :
  packed d -> PIn (mkPoint x y) (Rect d) = true ->
  (x', y') <> (x, y) ->
  RGBAAt (store d x y c) x' y' = RGBAAt d x' y'.
Proof.
  intros Hp Hin Hne. unfold RGBAAt. rewrite store_Rect.
  destruct (PIn (mkPoint x' y') (Rect d)) eqn:Hin'; [|done].
  destruct (offset_packed d x y Hp Hin) as (k & Hk & Hk0 & Hkl & Hkd).
  destruct (offset_packed d x' y' Hp Hin') as (k' & Hk' & Hk0' & Hkl' & Hkd').
  assert (k <> k') as Hkk.
  { intros ->. destruct (offset_inj d x y x' y' Hin Hin') as [-> ->]; congruence. }
  replace (PixOffset (store d x y c) x' y') with (4 * k') by (by rewrite <- Hk').
  unfold store. rewrite Hk, Hk'. simpl.
  f_equal; rewrite !byte_at_insert_ne by lia; done.
Qed.

(** One row of a draw: the pixels [xs] of row [y] are replaced, all others
    kept. *)
Lemma draw_row (g : Z -> Color) y xs : forall d x' y',
  packed d ->
  Forall (fun x => PIn (mkPoint x y) (Rect d) = true) xs ->
  let d' := foldl (fun d x => store d x y (g x)) d xs in
  packed d' /\ Rect d' = Rect d /\
  (Forall is_byte (Pix d) -> Forall is_byte (Pix d')) /\
  RGBAAt d' x' y' =
    if decide (y' = y /\ x' ∈ xs) then to_RGBA8 (g x') else RGBAAt d x' y'.
Proof.
  induction xs as [|x xs IH]; intros d x' y' Hp Hall; cbv zeta; cbn [foldl].
  - split; [done|]. split; [done|]. split; [done|]. case_decide as H; [|done].
    destruct H as [_ H]. by apply elem_of_nil in H.
  - apply Forall_cons in Hall as [Hx Hall].
    destruct (IH (store d x y (g x)) x' y') as (Hp' & HR & HB & HA).
    { by apply store_packed. } { by rewrite store_Rect. }
    split; [done|]. split; [by rewrite HR|].
    split; [intros; by apply HB, store_bytes|].
    rewrite HA. case_decide as H1.
    + destruct H1 as [-> H1]. rewrite decide_True; [done|]. split; [done|]. by right.
    + case_decide as H2.
      * destruct H2 as [-> H2]. apply elem_of_cons in H2 as [->|H2].
        -- by apply RGBAAt_store_eq.
        -- exfalso. apply H1. done.
      * apply RGBAAt_store_ne; [done..|].
        intros [= -> ->]. apply H2. split; [done|]. by left.
Qed.

(** A whole draw: the pixels of [xs] x [ys] are replaced by [g]. *)
Lemma draw_rows (g : Z -> Z -> Color) xs ys : forall d x' y',
  packed d ->
  Forall (fun y => Forall (fun x => PIn (mkPoint x y) (Rect d) = true) xs) ys ->
  let d' := foldl (fun d y => foldl (fun d x => store d x y (g x y)) d xs) d ys in
  packed d' /\ Rect d' = Rect d /\
  (Forall is_byte (Pix d) -> Forall is_byte (Pix d')) /\
  RGBAAt d' x' y' =
    if decide (y' ∈ ys /\ x' ∈ xs) then to_RGBA8 (g x' y') else RGBAAt d x' y'.
Proof.
  induction ys as [|y ys IH]; intros d x' y' Hp Hall; cbv zeta; cbn [foldl].
  - split; [done|]. split; [done|]. split; [done|]. case_decide as H; [|done].
    destruct H as [H _]. by apply elem_of_nil in H.
  - apply Forall_cons in Hall as [Hy Hall].
    pose proof (draw_row (fun x => g x y) y xs d x' y' Hp Hy) as (Hp1 & HR1 & HB1 & HA1).
    simpl in *.
    set (d1 := foldl (fun d x => store d x y (g x y)) d xs) in *.
    destruct (IH d1 x' y') as (Hp' & HR & HB & HA).
    { done. } { by rewrite HR1. }
    split; [done|]. split; [by rewrite HR, HR1|].
    split; [intros; by apply HB, HB1|].
    rewrite HA, HA1. case_decide as H1.
    + destruct H1 as [H1 H1']. rewrite decide_True; [done|]. split; [by right|done].
    + case_decide as H2.
      * destruct H2 as [-> H2]. rewrite decide_True; [done|]. split; [by left|done].
      * rewrite decide_False; [done|]. intros [H3 H4].
        apply elem_of_cons in H3 as [->|H3]; tauto.
Qed.

Lemma NewRGBA_packed r : WellFormed r -> packed (NewRGBA r).
Proof.
  intros [Hx Hy]. unfold packed, NewRGBA. simpl. split; [done|].
  rewrite length_replicate. unfold Dx, Dy. nia.
Qed.

Lemma NewRGBA_bytes r : Forall is_byte (Pix (NewRGBA r)).
Proof. simpl. apply Forall_replicate. unfold is_byte. lia. Qed.

Lemma RGBAAt_NewRGBA r x y : RGBAAt (NewRGBA r) x y = mkRGBA8 0 0 0 0.
Proof.
  unfold RGBAAt. destruct (PIn _ _); [|done]. simpl.
  assert (forall i, byte_at (replicate (Z.to_nat (4 * Dx r * Dy r)) 0) i = 0) as H.
  { intros i. unfold byte_at.
    destruct (replicate _ _ !! _) eqn:E; [|done].
    apply lookup_replicate in E as [-> _]. done. }
  by rewrite !H.
Qed.

Lemma Intersect_subset r s x y :
  PIn (mkPoint x y) (Intersect r s) = true ->
  PIn (mkPoint x y) r = true /\ PIn (mkPoint x y) s = true.
Proof.
  unfold Intersect.
  destruct (Empty _) eqn:E.
  - rewrite PIn_spec. simpl. lia.
  - rewrite !PIn_spec. simpl. lia.
Qed.

(** What [draw.Draw] leaves in a packed destination: inside the clipped
    rectangle the source pixel that the alignment of [r.Min] with [sp]
    selects, reduced to 8 bits; elsewhere the old content. *)
Lemma Draw_spec dst r src sp x y :
  packed dst ->
  let d' := Draw dst r src sp in
  packed d' /\ Rect d' = Rect dst /\
  (Forall is_byte (Pix dst) -> Forall is_byte (Pix d')) /\
  RGBAAt d' x y =
    if PIn (mkPoint x y) (clip dst r src sp)
    then to_RGBA8 (At src (x - X (Min r) + X sp) (y - Y (Min r) + Y sp))
    else RGBAAt dst x y.
Proof.
  intros Hp. unfold Draw. set (r' := clip dst r src sp).
  destruct (Empty r') eqn:HE; simpl.
  - split; [done|]. split; [done|]. split; [done|].
    destruct (PIn (mkPoint x y) r') eqn:Hin; [|done].
    apply PIn_spec in Hin. unfold Empty in HE.
    apply orb_true_iff in HE. rewrite !Z.leb_le in HE. lia.
  - pose proof (draw_rows (fun x y => At src (x - X (Min r) + X sp) (y - Y (Min r) + Y sp))
                  (seqZ (X (Min r')) (Dx r')) (seqZ (Y (Min r')) (Dy r')) dst x y Hp)
      as H.
    simpl in H. destruct H as (H1 & H2 & H3 & H4).
    { apply Forall_seqZ. intros y' Hy'. apply Forall_seqZ. intros x' Hx'.
      assert (PIn (mkPoint x' y') r' = true) as Hin.
      { apply PIn_spec. unfold Dx, Dy in *. lia. }
      unfold r', clip in Hin.
      apply Intersect_subset in Hin as [Hin _].
      apply Intersect_subset in Hin as [_ Hin]. done. }
    split; [done|]. split; [done|]. split; [done|]. rewrite H4.
    destruct (PIn (mkPoint x y) r') eqn:Hin.
    + rewrite decide_True; [done|]. apply PIn_spec in Hin.
      rewrite !elem_of_seqZ. unfold Dx, Dy. lia.
    + rewrite decide_False; [done|]. rewrite !elem_of_seqZ. intros [Ha Hb].
      apply not_true_iff_false in Hin. apply Hin. apply PIn_spec.
      unfold Dx, Dy in *. lia.
Qed.

Lemma drawn_origin img :
  Min (Bounds img) = ZP -> Empty (Bounds img) = false ->
  drawn img = Bounds img.
Proof.
  intros H0 HE. unfold drawn, clip. simpl.
  assert (forall r, Empty r = false -> Intersect r r = r) as Hrr.
  { intros [[a b] [c d]] H. unfold Intersect. simpl.
    rewrite !Z.max_id, !Z.min_id. by rewrite H. }
  rewrite Hrr by done.
  assert (RAdd (Bounds img) (PSub (Min (Bounds img)) ZP) = Bounds img) as ->.
  { rewrite H0. destruct (Bounds img) as [[a b] [c d]]. unfold RAdd, PAdd, PSub. simpl.
    f_equal; f_equal; lia. }
  by apply Hrr.
Qed.

(** [convertTo8Bit] on any image with well-formed bounds. *)
Lemma convertTo8Bit_spec img :
  WellFormed (Bounds img) ->
  exists p, convertTo8Bit img = RGBAImage p /\
    Rect p = Bounds img /\ packed p /\ Forall is_byte (Pix p) /\
    forall x y,
      RGBAAt p x y =
        if PIn (mkPoint x y) (drawn img)
        then to_RGBA8 (At img (x - X (Min (Bounds img))) (y - Y (Min (Bounds img))))
        else mkRGBA8 0 0 0 0.
Proof.
  intros Hwf. unfold convertTo8Bit. cbv zeta.
  change (Rect (NewRGBA (Bounds img))) with (Bounds img).
  eexists. split; [reflexivity|].
  pose proof (NewRGBA_packed _ Hwf) as Hp.
  pose proof (fun x y => Draw_spec (NewRGBA (Bounds img)) (Bounds img) img ZP x y Hp) as HD.
  cbv zeta in HD. destruct (HD 0 0) as (H1 & H2 & H3 & _).
  split; [exact H2|]. split; [exact H1|]. split; [apply H3, NewRGBA_bytes|].
  intros x y. destruct (HD x y) as (_ & _ & _ & ->).
  unfold drawn. rewrite RGBAAt_NewRGBA. simpl. by rewrite !Z.add_0_r.
Qed.

End ImageFacts.

(* ===================================================================== *)
(** ** Facts about the transition system *)
(* ===================================================================== *)

Lemma chan_limit_value : chan_limit = 7036874417766.
Proof. reflexivity. Qed.

Lemma makechan_in_range_spec elemsize size :
  makechan_in_range elemsize size = true <->
  0 <= size /\ elemsize * size < maxAlloc.
Proof.
  unfold makechan_in_range. rewrite andb_true_iff, Z.leb_le, Z.ltb_lt. tauto.
Qed.

Lemma int_incr_no_wrap i : int_min <= i < int_max -> int_incr i = i + 1.
Proof.
  unfold int_incr, wrap_int, int_min, int_max. intros H.
  rewrite Z.mod_small; lia.
Qed.

Section ProgramFacts.

Context {W : World} {Fpdf : Type} {B : PdfBuilder Fpdf}.
Variable cfg : Config.

Abbreviation first_index := (FirstImageIndex cfg).
Abbreviation last_index := (LastImageIndex cfg).
Abbreviation State := (@State Fpdf).

Implicit Types (s : State) (ws : list Worker) (w : Worker).

(** *** Workers *)

Lemma alive_app ws1 ws2 : alive (ws1 ++ ws2) = (alive ws1 + alive ws2)%nat.
Proof. unfold alive. by rewrite filter_app, length_app. Qed.

Lemma alive_cons w ws :
  alive (w :: ws) = ((if is_exited w then 0 else 1) + alive ws)%nat.
Proof.
  unfold alive. rewrite filter_cons. destruct (is_exited w) eqn:E.
  - rewrite decide_False by done. done.
  - rewrite decide_True by done. done.
Qed.

Lemma sending_app ws1 ws2 : sending (ws1 ++ ws2) = sending ws1 ++ sending ws2.
Proof. unfold sending. by rewrite omap_app. Qed.

Lemma split_at k ws w w' :
  ws !! k = Some w ->
  exists l1 l2, ws = l1 ++ w :: l2 /\ <[k := w']> ws = l1 ++ w' :: l2.
Proof.
  intros H. exists (take k ws), (drop (S k) ws). split.
  - by rewrite take_drop_middle.
  - apply insert_take_drop. by eapply lookup_lt_Some.
Qed.

Lemma alive_insert k ws w w' :
  ws !! k = Some w ->
  (alive (<[k := w']> ws) + (if is_exited w then 0 else 1) =
   alive ws + (if is_exited w' then 0 else 1))%nat.
Proof.
  intros H. destruct (split_at k ws w w' H) as (l1 & l2 & E1 & E2).
  rewrite E2, E1, !alive_app, !alive_cons.
  destruct (is_exited w), (is_exited w'); lia.
Qed.

Lemma alive_zero ws w : alive ws = 0%nat -> w ∈ ws -> is_exited w = true.
Proof.
  intros H Hin. apply list_elem_of_split in Hin as (l1 & l2 & ->).
  rewrite alive_app, alive_cons in H. destruct (is_exited w); [done|lia].
Qed.

Lemma alive_pos ws :
  (0 < alive ws)%nat -> exists k w, ws !! k = Some w /\ is_exited w = false.
Proof.
  induction ws as [|w ws IH]; [unfold alive; simpl; lia|].
  rewrite alive_cons. destruct (is_exited w) eqn:E.
  - intros H. destruct IH as (k & w' & ? & ?); [lia|]. by exists (S k), w'.
  - intros _. by exists 0%nat, w.
Qed.

Lemma sending_cons w ws : sending (w :: ws) = held w ++ sending ws.
Proof. unfold sending, held. simpl. by destruct (wpc w). Qed.

Lemma sending_insert k ws w w' :
  ws !! k = Some w ->
  held w ++ sending (<[k := w']> ws) ≡ₚ held w' ++ sending ws.
Proof.
  intros H. destruct (split_at k ws w w' H) as (l1 & l2 & E1 & E2).
  rewrite E2, E1, !sending_app, !sending_cons.
  solve_Permutation.
Qed.

Lemma sending_zero ws : alive ws = 0%nat -> sending ws = [].
Proof.
  induction ws as [|w ws IH]; [done|].
  rewrite alive_cons, sending_cons. intros H.
  rewrite IH by lia. unfold held. unfold is_exited in H.
  destruct (wpc w); simpl in *; try lia. done.
Qed.



(** *** Fetching, collecting, emitting: the functions on their own *)

Lemma Index_fetch i : Index (fetch cfg i) = i.
Proof. unfold fetch. by destruct (DownloadImage _). Qed.

Lemma fetch_populated i :
  (exists img, Image_ (fetch cfg i) = Some img /\ Error (fetch cfg i) = None) \/
  (exists err, Image_ (fetch cfg i) = None /\ Error (fetch cfg i) = Some err).
Proof.
  unfold fetch, DownloadImage.
  destruct (http_Get _); [destruct (image_Decode _)|]; simpl; eauto.
Qed.

(** *** The collector and the ordered loop *)

Lemma collect_snoc ar d : collect (ar ++ [d]) = collect_entry (collect ar) d.
Proof. unfold collect. by rewrite foldl_app. Qed.

Lemma ordered_nil m : ordered m [] = [].
Proof. done. Qed.

Lemma ordered_snoc m ids i :
  ordered m (ids ++ [i]) =
  ordered m ids ++ match m !! i with
                   | Some (Some img) => [(i, img)]
                   | _ => []
                   end.
Proof.
  unfold ordered. rewrite omap_app. f_equal. simpl.
  destruct (m !! i) as [[img|]|]; done.
Qed.

Lemma pages_snoc calls i img :
  pages (calls ++ [(i, img)]) = (AddImageToPDF (pages calls) img i).1.
Proof. unfold pages. by rewrite foldl_app. Qed.

(** Once [results] is sealed no worker can move. *)
Lemma sealed_no_worker ws k w :
  alive ws = 0%nat -> ws !! k = Some w -> wpc w = WExited.
Proof.
  intros Ha Hk. assert (is_exited w = true) as He.
  { eapply alive_zero; [done|]. by eapply list_elem_of_lookup_2. }
  unfold is_exited in He. by destruct (wpc w).
Qed.

Lemma AddImageToPDF_error pdf0 img i :
  (AddImageToPDF pdf0 img i).2 =
  match png_Encode img with
  | inr err => Some ("failed to encode image: " +:+ err)
  | inl _ => None
  end.
Proof. unfold AddImageToPDF. by destruct (png_Encode img). Qed.


(** *** What the collector stores and emits *)

Lemma collect_lookup_1 ar i v :
  collect ar !! i = Some v ->
  exists d, d ∈ ar /\ Index d = i /\ Error d = None /\ Image_ d = v.
Proof.
  induction ar as [|d ar IH] using rev_ind.
  - unfold collect. simpl. by rewrite lookup_empty.
  - rewrite collect_snoc. unfold collect_entry.
    destruct (Error d) eqn:He.
    + intros H. destruct (IH H) as (d' & ? & ?). exists d'. set_solver.
    + destruct (decide (Index d = i)) as [<-|Hne].
      * rewrite lookup_insert_eq. intros [= <-]. exists d. set_solver.
      * rewrite lookup_insert_ne by done. intros H.
        destruct (IH H) as (d' & ? & ?). exists d'. set_solver.
Qed.

Lemma collect_lookup_2 ar d :
  NoDup (Index <$> ar) -> d ∈ ar -> Error d = None ->
  collect ar !! Index d = Some (Image_ d).
Proof.
  induction ar as [|d' ar IH] using rev_ind; [by intros _ ?%elem_of_nil|].
  rewrite fmap_app, NoDup_app. intros (Hnd & Hdisj & _) Hin He.
  rewrite collect_snoc. unfold collect_entry.
  apply elem_of_app in Hin as [Hin|Hin].
  - assert (Index d <> Index d') as Hne.
    { intros Heq. apply (Hdisj (Index d)); [by apply list_elem_of_fmap_2|].
      rewrite Heq. set_solver. }
    destruct (Error d'); [by apply IH|].
    rewrite lookup_insert_ne by done. by apply IH.
  - apply list_elem_of_singleton in Hin as ->. rewrite He.
    by rewrite lookup_insert_eq.
Qed.

(** With at most one result per index the stored map does not depend on
    the order in which the results arrived. *)
Lemma collect_perm rs rs' :
  NoDup (Index <$> rs) -> rs ≡ₚ rs' -> collect rs = collect rs'.
Proof.
  intros Hnd Hp. assert (NoDup (Index <$> rs')) as Hnd' by (by rewrite <- Hp).
  apply map_eq. intros i. apply option_eq. intros v. split; intros H.
  - destruct (collect_lookup_1 _ _ _ H) as (d & Hin & <- & He & <-).
    apply collect_lookup_2; [done| |done]. by rewrite <- Hp.
  - destruct (collect_lookup_1 _ _ _ H) as (d & Hin & <- & He & <-).
    apply collect_lookup_2; [done| |done]. by rewrite Hp.
Qed.

Lemma elem_of_ordered m ids i img :
  (i, img) ∈ ordered m ids <-> i ∈ ids /\ m !! i = Some (Some img).
Proof.
  unfold ordered. rewrite list_elem_of_omap. split.
  - intros (j & Hj & H). destruct (m !! j) as [[img'|]|] eqn:E; simplify_eq. done.
  - intros [Hi H]. exists i. by rewrite H.
Qed.

Lemma ordered_fst_elem m ids i : i ∈ (ordered m ids).*1 -> i ∈ ids.
Proof.
  intros ([j img] & -> & H)%list_elem_of_fmap. by apply elem_of_ordered in H as [? _].
Qed.

Lemma ordered_sorted m ids :
  StronglySorted Z.lt ids -> StronglySorted Z.lt (ordered m ids).*1.
Proof.
  induction 1 as [|i ids Hs IH Hall]; [constructor|].
  change (i :: ids) with ([i] ++ ids).
  unfold ordered. rewrite omap_app. fold (ordered m ids). simpl.
  destruct (m !! i) as [[img|]|]; simpl; try done.
  constructor; [done|]. apply Forall_forall. intros j Hj.
  apply ordered_fst_elem in Hj. rewrite Forall_forall in Hall. by apply Hall.
Qed.

Lemma seqZ_sorted a n : StronglySorted Z.lt (seqZ a n).
Proof.
  destruct (decide (0 <= n)) as [Hn|Hn]; [|rewrite seqZ_nil by lia; constructor].
  revert a. pattern n. apply natlike_ind; [| |done].
  - intros a. rewrite seqZ_nil by lia. constructor.
  - intros k Hk IH a. rewrite seqZ_cons by lia.
    replace (Z.pred (Z.succ k)) with k by lia.
    constructor; [apply IH|]. apply Forall_seqZ. lia.
Qed.

Lemma fetch_DownloadImage i :
  DownloadImage (ImageURL cfg i) = (Image_ (fetch cfg i), Error (fetch cfg i)).
Proof. unfold fetch. by destruct (DownloadImage _). Qed.

(** Only images that encode add a page. *)
Lemma pages_encodes calls : pages calls = pages (filter (fun c => encodes c = true) calls).
Proof.
  induction calls as [|[i img] calls IH] using rev_ind; [done|].
  rewrite filter_app, filter_cons, filter_nil.
  destruct (encodes (i, img)) eqn:He.
  - rewrite decide_True by done. rewrite !pages_snoc. by rewrite IH.
  - rewrite decide_False by done. rewrite app_nil_r, pages_snoc, <- IH.
    unfold encodes in He. simpl in He. unfold AddImageToPDF.
    by destruct (png_Encode img).
Qed.

Lemma collect_no_nil ar i :
  Forall (fun d => d = fetch cfg (Index d)) ar -> collect ar !! i <> Some None.
Proof.
  induction ar as [|d ar IH] using rev_ind; intros Hall.
  - unfold collect. simpl. by rewrite lookup_empty.
  - apply Forall_app in Hall as [Hall Hd]. rewrite Forall_singleton in Hd.
    rewrite collect_snoc. unfold collect_entry.
    destruct (Error d) eqn:He; [by apply IH|].
    destruct (decide (Index d = i)) as [->|Hne].
    + rewrite lookup_insert_eq. intros [= Hnil].
      pose proof (f_equal Image_ Hd) as HdI. pose proof (f_equal Error Hd) as HdE.
      destruct (fetch_populated (Index d)) as [(img & Hi & _)|(err & _ & Herr)];
        congruence.
    + rewrite lookup_insert_ne by done. by apply IH.
Qed.


(** *** The collector on its own *)

Lemma exec_snoc sched t s :
  exec cfg (sched ++ [t]) s = default (exec cfg sched s) (step cfg t (exec cfg sched s)).
Proof. unfold exec. by rewrite foldl_app. Qed.

Lemma exec_app sched1 sched2 s :
  exec cfg (sched1 ++ sched2) s = exec cfg sched2 (exec cfg sched1 s).
Proof. unfold exec. by rewrite foldl_app. Qed.

(** While results are queued, [main] takes them one at a time. *)
Lemma collect_phase n : forall rs s,
  pc s = MCollect -> results_buf s = rs -> (n <= length rs)%nat ->
  let s' := exec cfg (replicate n TMain) s in
  pc s' = MCollect /\ results_buf s' = drop n rs /\
  imageMap s' = foldl collect_entry (imageMap s) (take n rs) /\
  built s' = built s /\ pdf s' = pdf s /\ results_closed s' = results_closed s.
Proof.
  induction n as [|n IH]; intros rs s Hpc Hrb Hn; simpl.
  - by rewrite drop_0.
  - destruct rs as [|d rs]; [simpl in Hn; lia|]. simpl in Hn.
    destruct s as [p ws wt jb jc rb rc g m pd out fe pu ar bu].
    simpl in Hpc, Hrb. subst p rb.
    unfold step at 1. simpl.
    match goal with |- context [exec cfg _ ?s] => set (s0 := s) end.
    assert (pc s0 = MCollect /\ results_buf s0 = rs /\
            imageMap s0 = collect_entry m d /\ built s0 = bu /\ pdf s0 = pd /\
            results_closed s0 = rc) as (E1 & E2 & E3 & E4 & E5 & E6).
    { unfold s0, collect_one, collect_entry, print.
      destruct (Error d); simpl; done. }
    destruct (IH rs s0 E1 E2 ltac:(lia)) as (H1 & H2 & H3 & H4 & H5 & H6).
    by rewrite H1, H2, H3, H4, H5, H6, E3, E4, E5, E6.
Qed.

(** From the collecting loop on, a step of [main] reads and writes nothing
    beyond the view, the log of arrivals and the printed lines. *)
Lemma main_step_view s1 s2 :
  view s1 = view s2 -> (5 <= phase (pc s1))%nat ->
  let s1' := default s1 (step cfg TMain s1) in
  let s2' := default s2 (step cfg TMain s2) in
  view s1' = view s2' /\ (5 <= phase (pc s1'))%nat.
Proof.
  destruct s1 as [p ws wt jb jc rb rc g m pd out fe pu ar bu].
  destruct s2 as [p' ws' wt' jb' jc' rb' rc' g' m' pd' out' fe' pu' ar' bu'].
  unfold view. simpl. intros [= <- <- <- <- <- <-] Hp.
  destruct p; simpl in Hp; try lia; unfold step, main_step; simpl.
  - destruct rb as [|d rb]; simpl.
    + destruct rc; simpl; split; (done || lia).
    + unfold collect_one, print. simpl. destruct (Error d); simpl; split; (done || lia).
  - destruct (i <=? LastImageIndex cfg); simpl; [|split; (done || lia)].
    unfold build_one, advance, print. simpl.
    destruct (m !! i) as [[img|]|]; simpl; try (split; (done || lia)).
    destruct (AddImageToPDF pd img i) as [pd1 [e|]]; simpl; split; (done || lia).
  - destruct (OutputFileAndClose pd _) as [closed [e|]]; simpl; split; (done || lia).
  - split; (done || lia).
  - split; (done || lia).
  - split; (done || lia).
Qed.

Lemma exec_main_view n : forall s1 s2,
  view s1 = view s2 -> (5 <= phase (pc s1))%nat ->
  view (exec cfg (replicate n TMain) s1) = view (exec cfg (replicate n TMain) s2).
Proof.
  induction n as [|n IH]; intros s1 s2 Hv Hp; [done|]. simpl.
  destruct (main_step_view s1 s2 Hv Hp) as [Hv' Hp']. by apply IH.
Qed.
(** *** Preservation of the invariants *)

(** Channels that were made have a size [makechan] accepts. *)
Lemma channels_made_range :
  channels_made cfg = true -> 0 <= capacity cfg <= chan_limit.
Proof.
  unfold channels_made. rewrite !andb_true_iff, !makechan_in_range_spec.
  rewrite chan_limit_value.
  unfold sizeof_int, sizeof_ImageData, maxAlloc. lia.
Qed.

Hypothesis Hvalid : ValidConfig cfg.

Ltac step_cases H :=
  unfold step, main_step, worker_step, waiter_step, collect_one, build_one,
    advance, print, set_worker in H; simpl in H; try discriminate H;
  repeat (case_match; simplify_eq/=).

Ltac no_wrap :=
  repeat match goal with
  | |- context [int_incr ?i] =>
      rewrite (int_incr_no_wrap i)
        by (unfold ValidConfig, int_min, int_max in *; simpl in *; lia)
  end.

Lemma lookup_insert_wid k ws w w' k0 w0 :
  (forall k w, ws !! k = Some w -> wid w = Z.of_nat k + 1) ->
  ws !! k = Some w -> wid w' = wid w ->
  <[k := w']> ws !! k0 = Some w0 -> wid w0 = Z.of_nat k0 + 1.
Proof.
  intros H Hk Hw H0. destruct (decide (k = k0)) as [->|Hne].
  - rewrite list_lookup_insert_eq in H0 by (by eapply lookup_lt_Some).
    simplify_eq. rewrite Hw. eauto.
  - rewrite list_lookup_insert_ne in H0 by done. eauto.
Qed.

Lemma step_InvMain t s s' :
  InvMain cfg s -> step cfg t s = Some s' -> pc s' <> MPanic -> InvMain cfg s'.
Proof.
  intros [HS HM H1 H2 H3 H4 H7 H8] H HP.
  destruct s as [p ws wt jb jc rb rc g m d out fe pu ar bu].
  step_cases H.
  all: split; simpl in *; intros; simplify_eq; try done; try lia; eauto.
  all: try (specialize (HS eq_refl);
            pose proof (f_equal workers HS) as Hws;
            pose proof (f_equal waiter HS) as Hwt;
            simpl in Hws, Hwt; simplify_eq/=; done).
  all: try (rewrite ?H7, ?H8; lia).
  all: try (split; intros; (done || lia)).
  all: rewrite ?length_insert, ?length_app; simpl; no_wrap; try lia.
  all: try match goal with
       | H : <[?k := ?w']> ?ws !! ?k0 = Some ?w0, H' : ?ws !! ?k = Some ?w |- _ =>
           exact (lookup_insert_wid k ws w w' k0 w0 H4 H' eq_refl H)
       end.
  all: try (unfold capacity in *; lia).
  all: try (apply channels_made_range; done).
  all: try (apply HM; simpl; lia).
  - apply lookup_app_Some in H as [H|[Hl H]]; [eauto|].
    apply list_lookup_singleton_Some in H as [Hk <-]. simpl. lia.
  - split; [done|]. intros Hp. by apply H8 in Hp.
Qed.

Lemma elem_of_insert_inv k ws w w' w0 :
  ws !! k = Some w -> w0 ∈ <[k := w']> ws -> w0 = w' \/ w0 ∈ ws.
Proof.
  intros H Hin. destruct (split_at k ws w w' H) as (l1 & l2 & E1 & E2).
  rewrite E2 in Hin. rewrite E1. set_solver.
Qed.

Lemma not_exited_alive ws k w :
  ws !! k = Some w -> is_exited w = false -> (0 < alive ws)%nat.
Proof.
  intros H He. destruct (split_at k ws w w H) as (l1 & l2 & E1 & _).
  rewrite E1, alive_app, alive_cons, He. lia.
Qed.

Lemma alive_nil : alive [] = 0%nat.
Proof. done. Qed.

Lemma alive_snoc ws w :
  alive (ws ++ [w]) = (alive ws + if is_exited w then 0 else 1)%nat.
Proof. rewrite alive_app, alive_cons, alive_nil. destruct (is_exited w); lia. Qed.

Ltac use_alive_insert :=
  match goal with
  | Hk : ?ws !! ?k = Some ?w, Hp : wpc ?w = _
    |- context [alive (<[?k := ?w']> ?ws)] =>
      let Ha := fresh "Ha" in
      pose proof (alive_insert k ws w w' Hk) as Ha;
      unfold is_exited in Ha; simpl in Ha; rewrite Hp in Ha
  end.

Ltac use_insert_inv :=
  match goal with
  | Hk : ?ws !! ?k = Some ?w, Hin : ?w0 ∈ <[?k := ?w']> ?ws |- _ =>
      apply (elem_of_insert_inv k ws w w' w0 Hk) in Hin as [->|Hi]
  end.

Lemma step_InvWorkers t s s' :
  InvMain cfg s -> InvWorkers s ->
  step cfg t s = Some s' -> pc s' <> MPanic -> InvWorkers s'.
Proof.
  intros [HS HM H1 H2 H3 H4 H7 H8] [G1 G2 G3 G4] H HP.
  destruct s as [p ws wt jb jc rb rc g m d out fe pu ar bu].
  step_cases H.
  all: split; simpl in *; intros; simplify_eq; try done; try lia; eauto.
  all: try (use_alive_insert;
            try match goal with Hrc : ?rc = true |- _ => specialize (G4 Hrc) end;
            lia).
  all: try (use_insert_inv; [done|]).
  all: try match goal with
       | Hin : ?w ∈ ?ws, He : is_exited ?w = true |- _ =>
           destruct (G2 w Hin He) as [? ?]; simplify_eq; try done
       end.
  - rewrite alive_snoc. simpl. lia.
  - match goal with Hin : _ ∈ _ ++ _ |- _ => apply elem_of_app in Hin as [Hi|Hi] end.
    + eauto.
    + apply list_elem_of_singleton in Hi. by subst.
  - assert (wt = WtDone) as -> by (by apply G3).
    assert (WtDone = WtNotStarted) by (apply H8; lia). done.
  - assert (4 <= 2)%nat by (by apply H7). lia.
  - split; [|done]. intros Hrc. apply G3 in Hrc. subst wt.
    assert (WtDone = WtNotStarted) by (apply H8; lia). done.
Qed.

(** *** The flow of indices and results *)

Ltac use_sending_insert :=
  match goal with
  | Hk : ?ws !! ?k = Some ?w, Hp : wpc ?w = _
    |- context [sending (<[?k := ?w']> ?ws)] =>
      let Hs := fresh "Hs" in
      pose proof (sending_insert k ws w w' Hk) as Hs;
      unfold held in Hs; simpl in Hs; rewrite Hp in Hs; simpl in Hs
  end.

Lemma seqZ_snoc a i : a <= i -> seqZ a (i + 1 - a) = seqZ a (i - a) ++ [i].
Proof.
  intros. replace (i + 1 - a) with ((i - a) + 1) by lia.
  rewrite seqZ_app by lia. f_equal.
  rewrite seqZ_cons by lia. rewrite seqZ_nil by lia. f_equal. lia.
Qed.

Lemma step_InvFlow t s s' :
  InvMain cfg s -> InvFlow cfg s ->
  step cfg t s = Some s' -> pc s' <> MPanic -> InvFlow cfg s'.
Proof.
  intros [HS HM H1 H2 H3 H4 H7 H8] [F1 F2 F3 F4] H HP.
  destruct s as [p ws wt jb jc rb rc g m d out fe pu ar bu].
  step_cases H.
  all: split; simpl in *; intros; simplify_eq; try done; try lia; eauto.
  all: try (by rewrite <- ?app_assoc).
  all: try (rewrite sending_app; simpl; by rewrite app_nil_r).
  all: try use_sending_insert.
  all: try (by rewrite Hs).
  - by rewrite Z.sub_diag.
  - no_wrap. rewrite seqZ_snoc by lia. by rewrite <- F1, <- app_assoc.
  - replace (capacity cfg) with (i - first_index); [done|].
    unfold capacity. lia.
  - rewrite Hs, F3, !fmap_app, fmap_cons, Index_fetch. solve_Permutation.
  - rewrite Hs. rewrite Forall_app, Forall_cons. rewrite Forall_app in F4.
    rewrite Index_fetch. tauto.
  - rewrite F3, <- Hs, !fmap_app, fmap_cons. simpl. solve_Permutation.
  - rewrite <- Hs in F4. by rewrite <- app_assoc.
Qed.

Lemma step_InvCollect t s s' :
  InvMain cfg s -> InvWorkers s -> InvCollect cfg s ->
  step cfg t s = Some s' -> pc s' <> MPanic -> InvCollect cfg s'.
Proof.
  intros [HS HM H1 H2 H3 H4 H7 H8] [G1 G2 G3 G4] [C1 C2 C3 C4 C5] H HP.
  destruct s as [p ws wt jb jc rb rc g m d out fe pu ar bu].
  step_cases H.
  all: split; simpl in *; intros; simplify_eq; try done; try lia; eauto.
  all: try (apply C1; lia).
  all: try (rewrite C1 by lia; done).
  all: try (rewrite collect_snoc; unfold collect_entry;
            match goal with He : Error _ = _ |- _ => by rewrite He end).
  all: try (rewrite pages_snoc;
            match goal with He : AddImageToPDF _ _ _ = _ |- _ => by rewrite He end).
  all: try (no_wrap; rewrite seqZ_snoc by lia; rewrite ordered_snoc;
            match goal with He : collect _ !! _ = _ |- _ => rewrite He end;
            by rewrite ?app_nil_r).
  all: try (unfold saved;
            match goal with He : OutputFileAndClose _ _ = _ |- _ => by rewrite He end).
  - by rewrite Z.sub_diag.
  - replace (capacity cfg) with (i - first_index); [done|].
    unfold capacity. lia.
  - by destruct C3 as [_ ->].
Qed.

(** *** What is printed *)

Lemma step_InvOut t s s' :
  InvWorkers s -> InvCollect cfg s -> InvOut s ->
  step cfg t s = Some s' -> pc s' <> MPanic -> InvOut s'.
Proof.
  intros [G1 G2 G3 G4] [C1 C2 C3 C4 C5] [O1 O2 O3 O4] H HP.
  destruct s as [p ws wt jb jc rb rc g m d out fe pu ar bu].
  step_cases H.
  all: split; simpl in *; intros; simplify_eq; try done; try lia; eauto.
  all: try (apply elem_of_app; left; eauto; fail).
  all: try match goal with
       | Hin : _ ∈ _ ++ [_] |- _ =>
           apply elem_of_app in Hin as [Hi|Hi];
           [|apply list_elem_of_singleton in Hi; simplify_eq]
       end.
  all: try (apply elem_of_app; left; eauto; fail).
  all: try (apply elem_of_app; right; apply list_elem_of_singleton; done).
  all: eauto.
  all: try match goal with
       | He : AddImageToPDF ?d ?img ?i = _, Hp : png_Encode ?img = _ |- _ =>
           pose proof (AddImageToPDF_error d img i) as Hae;
           rewrite He, Hp in Hae; simpl in Hae; simplify_eq
       end.
  all: try (apply elem_of_app; right; apply list_elem_of_singleton; done).
  all: try match goal with
       | He : OutputFileAndClose _ _ = _ |- _ =>
           exists out; unfold saved; rewrite He; simpl; by rewrite ?app_nil_r
       end.
  - destruct (O3 eq_refl) as [pre ->]. exists pre. by rewrite app_assoc.
  - destruct C3 as [Hrc _]; [simpl; lia|].
    match goal with
    | Hk : ws !! _ = Some ?w, Hp : wpc ?w = WRecv |- _ =>
        rewrite (sealed_no_worker ws _ w (G4 Hrc) Hk) in Hp; discriminate
    end.
Qed.

(** *** The invariant holds in every reachable state *)

Lemma Inv_init : Inv cfg init.
Proof.
  unfold Inv, init. simpl. split; [|split; [|split; [|split]]].
  - split; simpl; try done; try lia. split; intros; [lia|done].
  - split; simpl; try done. intros w Hw. by apply elem_of_nil in Hw.
  - split; simpl; try done.
  - split; simpl; try done; intros; lia.
  - split; simpl; try done.
    + intros d err Hd. by apply elem_of_nil in Hd.
    + intros i img err Hd. by apply elem_of_nil in Hd.
Qed.

Lemma step_panic t s s' :
  Inv cfg s -> step cfg t s = Some s' -> pc s' = MPanic ->
  channels_made cfg = false /\ s' = set_pc MPanic init.
Proof.
  intros HI H HP.
  assert (pc s <> MPanic) as Hrun.
  { intros Hp. unfold step, running in H. by rewrite Hp in H. }
  unfold Inv in HI. destruct (pc s) eqn:Hpc; try done.
  all: destruct HI as ([HS HM H1 H2 H3 H4 H7 H8] & [G1 G2 G3 G4] & [F1 F2 F3 F4]
                       & [C1 C2 C3 C4 C5] & _).
  all: destruct s as [p ws wt jb jc rb rc g m d out fe pu ar bu].
  all: simpl in *; subst p.
  all: step_cases H.
  all: try match goal with
       | Hk : ?ws !! _ = Some ?w, Hp : wpc ?w = WSend _,
         G : true = true -> alive ?ws = 0%nat |- _ =>
           rewrite (sealed_no_worker ws _ w (G eq_refl) Hk) in Hp; discriminate
       end.
  all: try (exfalso; rewrite !Forall_app in F4; destruct F4 as [[F4 _] _];
            by eapply collect_no_nil).
  split; [done|]. by rewrite <- (HS eq_refl).
Qed.

Lemma Inv_running s : Inv cfg s -> pc s <> MPanic ->
  InvMain cfg s /\ InvWorkers s /\ InvFlow cfg s /\ InvCollect cfg s /\ InvOut s.
Proof. unfold Inv. by destruct (pc s). Qed.

Lemma Inv_step t s s' : Inv cfg s -> step cfg t s = Some s' -> Inv cfg s'.
Proof.
  intros HI H.
  assert (pc s' = MPanic \/ pc s' <> MPanic) as [HP|HP]
    by (destruct (pc s'); (by left) || (by right)).
  { unfold Inv. rewrite HP. by eapply step_panic. }
  assert (pc s <> MPanic) as Hrun.
  { intros Hp. unfold step, running in H. by rewrite Hp in H. }
  destruct (Inv_running s HI Hrun) as (HM & HW & HF & HC & HO).
  assert (InvMain cfg s' /\ InvWorkers s' /\ InvFlow cfg s' /\ InvCollect cfg s'
          /\ InvOut s') as HI'.
  { split; [by eapply step_InvMain|]. split; [by eapply step_InvWorkers|].
    split; [by eapply step_InvFlow|]. split; [by eapply step_InvCollect|].
    by eapply step_InvOut. }
  unfold Inv. by destruct (pc s').
Qed.

Lemma Inv_reachable s : reachable cfg s -> Inv cfg s.
Proof.
  unfold reachable. revert s. apply rtc_ind_r; [apply Inv_init|].
  intros s1 s2 _ [t Hst] IH. by eapply Inv_step.
Qed.

(** *** Progress: no deadlock *)

Lemma worker_can_send k w s d :
  wpc w = WSend d -> results_closed s = false ->
  Z.of_nat (length (results_buf s)) < capacity cfg ->
  exists s', worker_step cfg k w s = Some s'.
Proof.
  intros Hw Hc Hl. unfold worker_step. rewrite Hw, Hc.
  apply Z.ltb_lt in Hl. rewrite Hl. eauto.
Qed.

Lemma progress s :
  Inv cfg s -> running s = true -> exists t s', step cfg t s = Some s'.
Proof.
  intros HI Hrun.
  assert (pc s <> MPanic) as HP by (intros Hp; unfold running in Hrun; by rewrite Hp in Hrun).
  destruct (Inv_running s HI HP) as ([HS HM H1 H2 H3 H4 H7 H8] & [G1 G2 G3 G4]
    & [F1 F2 F3 F4] & [C1 C2 C3 C4 C5] & _).
  destruct s as [p ws wt jb jc rb rc g m d out fe pu ar bu]. simpl in *.
  destruct p; simpl in *; try done.
  all: try (exists TMain; unfold step, main_step; simpl;
            repeat case_match; eauto; fail).
  - (* sending jobs: the buffer has room *)
    exists TMain. unfold step, main_step. simpl.
    destruct (i <=? last_index) eqn:Hi; [|eauto].
    apply Z.leb_le in Hi.
    assert (Z.of_nat (length jb) <= i - first_index) as Hlen.
    { apply (f_equal length) in F1. rewrite length_app, length_seqZ in F1. lia. }
    assert ((Z.of_nat (length jb) <? capacity cfg) = true) as ->.
    { apply Z.ltb_lt. unfold capacity. lia. }
    eauto.
  - (* collecting *)
    destruct rb as [|d0 rb]; [|exists TMain; unfold step, main_step; simpl; eauto].
    destruct rc eqn:Hrc; [exists TMain; unfold step, main_step; simpl; eauto|].
    assert (wt = WtWait) as ->.
    { destruct wt; [|done|].
      - assert (5 <= 4)%nat by (by apply H8). lia.
      - assert (false = true) by (by apply G3). done. }
    destruct (decide (g = 0)) as [->|Hg].
    { exists TWaiter. unfold step, waiter_step. simpl. eauto. }
    destruct (alive_pos ws) as (k & w & Hk & Hw); [lia|].
    exists (TWorker k). unfold step. simpl. rewrite Hk.
    unfold is_exited in *. destruct (wpc w) eqn:Hpc; [| |done].
    + unfold worker_step. rewrite Hpc. simpl. destruct jb; [|eauto].
      assert (jc = true) as -> by (apply H7; lia). eauto.
    + assert (0 < capacity cfg) as Hcap.
      { assert (d0 ∈ sending ws) as Hin.
        { destruct (split_at k ws w w Hk) as (l1 & l2 & -> & _).
          rewrite sending_app, sending_cons. unfold held. rewrite Hpc. set_solver. }
        apply Permutation_length in F3.
        rewrite length_fmap, length_app in F3.
        apply (f_equal length) in F1. rewrite length_app, length_seqZ in F1.
        apply list_elem_of_split in Hin as (l1 & l2 & Hs). rewrite Hs in F3.
        rewrite length_app in F3. simpl in *. lia. }
      eapply worker_can_send; eauto.
Qed.

(** *** Termination: every step uses up fuel *)

Lemma sending_insert_length k ws w w' :
  ws !! k = Some w ->
  (length (held w) + length (sending (<[k := w']> ws)) =
   length (held w') + length (sending ws))%nat.
Proof.
  intros H. pose proof (sending_insert k ws w w' H) as Hs.
  apply Permutation_length in Hs. by rewrite !length_app in Hs.
Qed.

Ltac use_sending_length :=
  match goal with
  | Hk : ?ws !! ?k = Some ?w, Hp : wpc ?w = _
    |- context [sending (<[?k := ?w']> ?ws)] =>
      let Hs := fresh "Hs" in
      pose proof (sending_insert_length k ws w w' Hk) as Hs;
      unfold held in Hs; simpl in Hs; rewrite Hp in Hs; simpl in Hs
  end.

Lemma step_measure t s s' :
  Inv cfg s -> step cfg t s = Some s' -> (measure cfg s' < measure cfg s)%nat.
Proof.
  intros HI H.
  assert (pc s <> MPanic) as HP by (intros Hp; unfold step, running in H; by rewrite Hp in H).
  destruct (Inv_running s HI HP) as ([HS HM H1 H2 H3 H4 H7 H8] & [G1 G2 G3 G4] & _).
  destruct s as [p ws wt jb jc rb rc g m d out fe pu ar bu].
  step_cases H.
  all: unfold measure; simpl in *.
  all: rewrite ?length_app, ?sending_app, ?alive_snoc; simpl.
  all: try use_alive_insert; try use_sending_length.
  all: no_wrap.
  all: try (unfold capacity in *; lia).
  all: rewrite ?app_nil_r.
  all: try (destruct wt; unfold capacity in *; lia).
  all: try (destruct p; try done; simpl; lia).
Qed.

(** Every sequence of steps is bounded by the fuel of its first state. *)
Lemma nsteps_bounded n s s' :
  Inv cfg s -> nsteps (steps cfg) n s s' ->
  Inv cfg s' /\ (n + measure cfg s' <= measure cfg s)%nat.
Proof.
  intros HI Hn. induction Hn as [|n s1 s2 s3 [t Hst] _ IH]; [split; [done|lia]|].
  pose proof (step_measure t s1 s2 HI Hst).
  destruct IH as [? ?]; [by eapply Inv_step|]. split; [done|lia].
Qed.

Lemma exec_reachable sched s : reachable cfg s -> reachable cfg (exec cfg sched s).
Proof.
  revert s. induction sched as [|t sched IH]; intros s Hs; [done|].
  simpl. apply IH. destruct (step cfg t s) as [s'|] eqn:Hst; [|done].
  simpl. eapply rtc_r; [done|]. by exists t.
Qed.

(** From every reachable state some schedule takes the process to its end. *)
Lemma terminates s :
  Inv cfg s -> exists sched, running (exec cfg sched s) = false.
Proof.
  remember (measure cfg s) as n eqn:Hn. revert s Hn.
  induction n as [n IH] using lt_wf_ind. intros s -> HI.
  destruct (running s) eqn:Hrun; [|by exists []].
  destruct (progress s HI Hrun) as (t & s' & Hst).
  destruct (IH (measure cfg s') (step_measure t s s' HI Hst) s' eq_refl) as [sched Hs].
  { by eapply Inv_step. }
  exists (t :: sched). simpl. by rewrite Hst.
Qed.
(** *** Facts that hold in every reachable state *)

Lemma Inv_Facts s : Inv cfg s -> Facts cfg s.
Proof.
  intros HI. unfold Inv in HI. destruct (pc s) eqn:Hpc.
  11: { destruct HI as [_ ->]. split; simpl; try done.
        - by right.
        - by intros i ?%elem_of_nil. }
  all: destruct HI as ([HS HM H1 H2 H3 H4 H7 H8] & [G1 G2 G3 G4] & [F1 F2 F3 F4]
                       & [C1 C2 C3 C4 C5] & _).
  all: rewrite Hpc in *.
  all: split; rewrite ?Hpc; try done; try (by left).
  all: try (intros j Hj;
            assert (j ∈ seqZ first_index (produced cfg (pc s))) as Hin
              by (rewrite Hpc, <- F1; set_solver);
            apply elem_of_seqZ in Hin; rewrite Hpc in Hin; simpl in *;
            unfold capacity in *; lia).
  all: intros Hrc; pose proof (G4 Hrc) as Ha.
  all: assert (waiter s = WtDone) as Hwt by (by apply G3).
  all: try (assert (waiter s = WtNotStarted) by (apply H8; simpl; lia); congruence).
  all: simpl in *.
  all: split; [done|]. 
  all: split; [done|].
  all: split; [lia|].
  all: split; [apply H7; lia|].
  all: split; [done|].
  all: intros HW.
  all: destruct (workers s) as [|w ws] eqn:Hws; [simpl in *; lia|].
  all: eapply (G2 w); [set_solver|].
  all: eapply alive_zero; [done|set_solver].
Qed.

Lemma reachable_Facts s : reachable cfg s -> Facts cfg s.
Proof. intros. by apply Inv_Facts, Inv_reachable. Qed.

Lemma Facts_NoDup s :
  Facts cfg s -> NoDup (fetched s) /\ NoDup (Index <$> published s) /\
             NoDup (Index <$> arrived s).
Proof.
  intros [Q _ F T P _ _ _ _].
  assert (NoDup (fetched s)) as Hnd.
  { destruct Q as [Q|(_ & -> & _)]; [|constructor].
    pose proof (NoDup_seqZ first_index (produced cfg (pc s))) as Hnd.
    rewrite <- Q in Hnd. by apply NoDup_app in Hnd as (Hnd & _ & _). }
  split; [done|].
  rewrite F, fmap_app in Hnd. apply NoDup_app in Hnd as (Hnd & _ & _).
  split; [done|].
  rewrite P, fmap_app in Hnd. by apply NoDup_app in Hnd as (? & _ & _).
Qed.

Lemma run_Facts sched : Facts cfg (exec cfg sched init).
Proof. apply reachable_Facts, exec_reachable. apply rtc_refl. Qed.

Lemma run_Inv sched : Inv cfg (exec cfg sched init).
Proof. apply Inv_reachable, exec_reachable. apply rtc_refl. Qed.

Lemma alive_zero_exited ws :
  alive ws = 0%nat -> Forall (fun w => wpc w = WExited) ws.
Proof.
  intros Ha. apply Forall_forall. intros w Hw.
  pose proof (alive_zero ws w Ha Hw) as He. unfold is_exited in He.
  by destruct (wpc w).
Qed.

(** When the ordered loop is over, what happened is fully determined. *)
Lemma completed s :
  Inv cfg s -> 1 <= WorkerCount cfg -> results_closed s = true ->
  fetched s = seqZ first_index (capacity cfg) /\
  Index <$> published s ≡ₚ seqZ first_index (capacity cfg).
Proof.
  intros HI HW Hrc. destruct (Inv_Facts s HI) as [_ _ F _ _ _ _ _ S].
  destruct (S Hrc) as (Ha & _ & _ & _ & Hq & Hj).
  rewrite (Hj HW), app_nil_r in Hq. split; [done|].
  rewrite (sending_zero _ Ha), app_nil_r in F. by rewrite <- F, Hq.
Qed.

Lemma after_build_sealed s :
  Inv cfg s -> after_build (pc s) ->
  results_closed s = true /\ results_buf s = [] /\ visited cfg (pc s) = capacity cfg.
Proof.
  intros HI Hp. unfold Inv in HI.
  destruct Hp as [Hp|[Hp|Hp]]; rewrite Hp in *;
    destruct HI as (_ & _ & _ & [_ _ C _ _] & _); rewrite Hp in C;
    (destruct C as [? ?]; [simpl; lia|done]).
Qed.

End ProgramFacts.

(* ===================================================================== *)
(** ** Normalization *)
(* ===================================================================== *)

Section Normalization.

Lemma byte_at_byte pix i : Forall is_byte pix -> is_byte (byte_at pix i).
Proof.
  intros H. unfold byte_at. destruct (pix !! Z.to_nat i) as [v|] eqn:E; simpl.
  - rewrite Forall_forall in H. apply H. by eapply list_elem_of_lookup_2.
  - unfold is_byte. lia.
Qed.

Lemma to_RGBA8_RGBA p x y :
  Forall is_byte (Pix p) -> to_RGBA8 (RGBA8_RGBA (RGBAAt p x y)) = RGBAAt p x y.
Proof.
  intros H. unfold RGBAAt. destruct (PIn _ _); unfold to_RGBA8, RGBA8_RGBA; simpl.
  - f_equal; apply narrow_widen; by apply byte_at_byte.
  - f_equal; apply narrow_widen; unfold is_byte; lia.
Qed.

(** Where the bounds start at the origin (0, 0), [convertTo8Bit] leaves a
    normalized bitmap as it is: the same bounds and the same colour at
    every coordinate, whatever the stride of its buffer. *)
Lemma idempotent_at_origin (p : RGBA) :
  normalized p -> Min (Rect p) = ZP -> unchanged_by_convertTo8Bit p.
Proof.
  intros (Hwf & Hb) H0.
  destruct (convertTo8Bit_spec (RGBAImage p) Hwf) as (q & Hq & HR & _ & _ & HA).
  unfold unchanged_by_convertTo8Bit. rewrite Hq. simpl in *. split; [done|].
  intros x y Hin. f_equal. rewrite HA, H0. simpl. rewrite !Z.sub_0_r.
  assert (Empty (Rect p) = false) as HE.
  { apply Empty_false. apply PIn_spec in Hin. lia. }
  rewrite (drawn_origin (RGBAImage p) H0 HE). simpl. rewrite Hin.
  by apply to_RGBA8_RGBA.
Qed.

Example origin_bitmap_unchanged :
  unchanged_by_convertTo8Bit Demo.origin_bitmap.
Proof.
  apply (idempotent_at_origin Demo.origin_bitmap).
  - unfold normalized, WellFormed, Demo.origin_bitmap. simpl.
    split; [lia|]. repeat constructor; unfold is_byte; lia.
  - reflexivity.
Qed.

(** C6. [convertTo8Bit] does not leave every normalized bitmap as it is.
    It draws with the source point [image.Point{}] where the corner of the
    source, [img.Bounds().Min], was meant. On the normalized 2 x 2 bitmap
    with bounds (1,1)-(3,3) the bounds are kept, the pixel (1,1) goes from
    (1,2,3,4) to (0,0,0,0), the pixels (2,1) and (1,2) are blanked as well,
    and (2,2) takes the colour that was at (1,1). *)
Theorem C6_offset_bitmap_changed :
  normalized Demo.offset_bitmap /\
  convertTo8Bit (RGBAImage Demo.offset_bitmap) =
    RGBAImage (mkRGBA [0; 0; 0; 0;  0; 0; 0; 0;  0; 0; 0; 0;  1; 2; 3; 4] 8
                      (mkRect (mkPoint 1 1) (mkPoint 3 3))) /\
  RGBAAt Demo.offset_bitmap 1 1 = mkRGBA8 1 2 3 4 /\
  At (convertTo8Bit (RGBAImage Demo.offset_bitmap)) 1 1 <>
    At (RGBAImage Demo.offset_bitmap) 1 1 /\
  ~ unchanged_by_convertTo8Bit Demo.offset_bitmap.
Proof.
  split; [|split; [|split; [|split]]].
  - unfold normalized, WellFormed, Demo.offset_bitmap. simpl.
    split; [lia|]. repeat constructor; unfold is_byte; lia.
  - vm_compute. reflexivity.
  - vm_compute. reflexivity.
  - vm_compute. discriminate.
  - intros [_ H]. specialize (H 1 1 eq_refl). vm_compute in H. discriminate H.
Qed.

Context {W : World}.

(** Whatever image the decoder returns for a download (of any type,
    [*image.RGBA] included), [DownloadImage] returns its conversion, and the
    conversion is an [*image.RGBA] with the bounds of the source, a buffer
    of four bytes per pixel of those bounds with adjacent rows, and 8-bit
    channels; for a source whose bounds start at the origin every pixel of
    the frame is the source pixel reduced to 8 bits. *)
Lemma normalization_at_origin (url : string) (body : bytes) (img : Image) :
  http_Get url = inl body -> image_Decode body = inl img ->
  WellFormed (Bounds img) ->
  exists p : RGBA,
    DownloadImage url = (Some (RGBAImage p), None) /\
    convertTo8Bit img = RGBAImage p /\
    Rect p = Bounds img /\
    Stride p = 4 * Dx (Bounds img) /\
    Z.of_nat (length (Pix p)) = 4 * Dx (Bounds img) * Dy (Bounds img) /\
    Forall is_byte (Pix p) /\
    (Min (Bounds img) = ZP -> forall x y,
       PIn (mkPoint x y) (Bounds img) = true ->
       RGBAAt p x y = to_RGBA8 (At img x y)).
Proof.
  intros Hg Hd Hwf.
  destruct (convertTo8Bit_spec img Hwf) as (p & Hp & HR & [Hs Hl] & Hb & HA).
  exists p. split; [|split; [done|split; [done|]]].
  { unfold DownloadImage. by rewrite Hg, Hd, Hp. }
  rewrite HR in Hs, Hl. split; [done|]. split; [done|]. split; [done|].
  intros H0 x y Hin. rewrite HA, H0. simpl. rewrite !Z.sub_0_r.
  assert (Empty (Bounds img) = false) as HE.
  { apply Empty_false. apply PIn_spec in Hin. lia. }
  by rewrite (drawn_origin img H0 HE), Hin.
Qed.

(** C7. The copy is not of the full frame when the decoded image does not
    start at the origin, as a GIF frame placed off the corner of its canvas
    does not. For a download that decodes to the 2 x 2 frame with bounds
    (1,1)-(3,3), [DownloadImage] returns a raster with those bounds in
    which no pixel is the source pixel: (1,1), (2,1) and (1,2) are blank
    and (2,2) holds the colour of the source at (1,1). *)
Theorem C7_offset_frame_not_copied (url : string) (body : bytes) :
  http_Get url = inl body -> image_Decode body = inl Demo.offset_image ->
  exists p : RGBA,
    DownloadImage url = (Some (RGBAImage p), None) /\
    Rect p = Bounds Demo.offset_image /\
    Pix p = [0; 0; 0; 0;  0; 0; 0; 0;  0; 0; 0; 0;  11; 0; 0; 255] /\
    to_RGBA8 (At Demo.offset_image 1 1) = mkRGBA8 11 0 0 255 /\
    RGBAAt p 1 1 = mkRGBA8 0 0 0 0 /\
    RGBAAt p 2 2 = to_RGBA8 (At Demo.offset_image 1 1) /\
    Forall (fun c => RGBAAt p c.1 c.2 <> to_RGBA8 (At Demo.offset_image c.1 c.2))
           [(1, 1); (2, 1); (1, 2); (2, 2)].
Proof.
  intros Hg Hd.
  exists (mkRGBA [0; 0; 0; 0;  0; 0; 0; 0;  0; 0; 0; 0;  11; 0; 0; 255] 8
                 (mkRect (mkPoint 1 1) (mkPoint 3 3))).
  split; [|split; [done|split; [done|split; [done|split; [done|split; [done|]]]]]].
  - unfold DownloadImage. rewrite Hg, Hd. vm_compute. reflexivity.
  - repeat constructor; vm_compute; discriminate.
Qed.

End Normalization.

(** The download of index 1 in the small instance: a 2 x 2 image with
    16-bit channels comes back as 16 bytes of RGBA. *)
Example small_download_normalized :
  exists p : RGBA,
    DownloadImage (W := Demo.stub_world) "XX/1.XX" = (Some (RGBAImage p), None) /\
    Pix p = [49; 0; 0; 255;  49; 0; 0; 255;  49; 0; 0; 255;  49; 0; 0; 255].
Proof. eexists. split; vm_compute; reflexivity. Qed.

Lemma C7_offset_frame_not_copied_witness :
  exists p : RGBA,
    DownloadImage (W := Demo.frame_world) "XX/1.XX" = (Some (RGBAImage p), None) /\
    Rect p = Bounds Demo.offset_image /\
    Pix p = [0; 0; 0; 0;  0; 0; 0; 0;  0; 0; 0; 0;  11; 0; 0; 255] /\
    to_RGBA8 (At Demo.offset_image 1 1) = mkRGBA8 11 0 0 255 /\
    RGBAAt p 1 1 = mkRGBA8 0 0 0 0 /\
    RGBAAt p 2 2 = to_RGBA8 (At Demo.offset_image 1 1) /\
    Forall (fun c => RGBAAt p c.1 c.2 <> to_RGBA8 (At Demo.offset_image c.1 c.2))
           [(1, 1); (2, 1); (1, 2); (2, 2)].
Proof.
  apply (C7_offset_frame_not_copied (W := Demo.frame_world) "XX/1.XX"
           (Demo.codes "XX/1.XX")).
  - reflexivity.
  - reflexivity.
Defined.

(* ===================================================================== *)
(** ** The properties of the pipeline *)
(* ===================================================================== *)

Section Pipeline.

Context {W : World} {Fpdf : Type} {B : PdfBuilder Fpdf}.
Variable cfg : Config.

Abbreviation first_index := (FirstImageIndex cfg).
Abbreviation last_index := (LastImageIndex cfg).

Lemma run_app sched rest : run cfg (sched ++ rest) = exec cfg rest (run cfg sched).
Proof. unfold run. apply exec_app. Qed.

(** A process whose channels were made does not die, and every run of it
    can be carried on to the return of [main]. *)
Lemma run_completes (sched : list Thread) :
  ValidConfig cfg -> channels_made cfg = true ->
  pc (run cfg sched) <> MPanic /\
  exists rest, pc (run cfg (sched ++ rest)) = MExit.
Proof.
  intros Hv Hcap.
  assert (forall sc, pc (run cfg sc) <> MPanic) as Hnp.
  { intros sc Hp. pose proof (run_Inv cfg Hv sc) as HI. fold (run cfg sc) in HI.
    unfold Inv in HI. rewrite Hp in HI. destruct HI as [HI _]. congruence. }
  split; [done|].
  pose proof (run_Inv cfg Hv sched) as HI.
  destruct (terminates cfg Hv _ HI) as [rest Hrest].
  exists rest. rewrite run_app. specialize (Hnp (sched ++ rest)).
  rewrite run_app in Hnp. unfold run in *. unfold running in Hrest.
  by destruct (pc (exec cfg rest (exec cfg sched init))).
Qed.

(** No execution is longer than the fuel of the state it starts in. *)
Lemma run_bounded (sched : list Thread) (n : nat) (s' : State) :
  ValidConfig cfg -> nsteps (steps cfg) n (run cfg sched) s' ->
  (n <= measure cfg (run cfg sched))%nat.
Proof.
  intros Hv Hn.
  destruct (nsteps_bounded cfg Hv n _ s' (run_Inv cfg Hv sched) Hn) as [_ H].
  unfold run. lia.
Qed.

Lemma omap_ext_in {A C : Type} (f g : A -> option C) (l : list A) :
  (forall x, x ∈ l -> f x = g x) -> omap f l = omap g l.
Proof.
  induction l as [|a l IH]; intros H; [done|].
  assert (omap f l = omap g l) as IH' by (apply IH; intros x Hx; apply H; set_solver).
  simpl. rewrite (H a) by set_solver. destruct (g a); [f_equal|]; exact IH'.
Qed.

(** The map the collector builds from tagged results, looked up at the
    index of one of them: the image when the download worked, no entry when
    it failed. *)
Lemma collect_fetched (ar : list ImageData) (i : Z) :
  Forall (fun d => d = fetch cfg (Index d)) ar -> NoDup (Index <$> ar) ->
  i ∈ Index <$> ar ->
  match collect ar !! i with
  | Some (Some img) => Some (i, img)
  | _ => None
  end =
  match DownloadImage (ImageURL cfg i) with
  | (Some img, None) => Some (i, img)
  | _ => None
  end.
Proof.
  intros Ht Hnd Hi. rewrite Forall_forall in Ht.
  apply list_elem_of_fmap in Hi as (d & -> & Hd).
  pose proof (Ht d Hd) as Hfd. rewrite fetch_DownloadImage.
  pose proof (f_equal Image_ Hfd) as E1. pose proof (f_equal Error Hfd) as E2.
  rewrite <- E1, <- E2.
  destruct (Error d) as [err|] eqn:He.
  - destruct (collect ar !! Index d) as [v|] eqn:Hl.
    + apply collect_lookup_1 in Hl as (d' & Hd' & Hi' & He' & _).
      pose proof (Ht d' Hd') as Hfd'. rewrite Hi', <- Hfd in Hfd'. congruence.
    + by destruct (Image_ d).
  - rewrite (collect_lookup_2 ar d Hnd Hd He). done.
Qed.

(** When the loop that adds the pages is over, the calls of
    [AddImageToPDF] are those read off the downloads. *)
Lemma finished_built (sched : list Thread) :
  ValidConfig cfg -> 1 <= WorkerCount cfg ->
  after_build (pc (run cfg sched)) ->
  built (run cfg sched) = expected_output cfg.
Proof.
  intros Hv HW Hab. set (s := run cfg sched) in *.
  pose proof (run_Inv cfg Hv sched) as HI. fold (run cfg sched) in HI. fold s in HI.
  pose proof (Inv_Facts cfg Hv s HI) as HF.
  destruct (after_build_sealed cfg s HI Hab) as (Hrc & Hrb & Hvis).
  destruct (completed cfg Hv s HI HW Hrc) as [_ Hperm].
  destruct (Facts_NoDup cfg s HF) as (_ & _ & Hnd).
  pose proof (fa_pub _ _ HF) as Hpub. rewrite Hrb, app_nil_r in Hpub.
  pose proof (fa_tagged _ _ HF) as Ht. rewrite Forall_app in Ht. destruct Ht as [Ht _].
  rewrite Hpub in Ht, Hperm.
  rewrite (fa_built _ _ HF), (fa_map _ _ HF), Hvis.
  unfold ordered, expected_output. apply omap_ext_in. intros i Hi.
  apply collect_fetched; [done..|]. by rewrite Hperm.
Qed.

(** Once the ordered loop is over, every index whose download succeeded
    has been handed to [AddImageToPDF]. *)
Lemma built_complete (sched : list Thread) :
  ValidConfig cfg -> 1 <= WorkerCount cfg ->
  let s := run cfg sched in
  after_build (pc s) -> forall i img,
    first_index <= i <= last_index ->
    DownloadImage (ImageURL cfg i) = (Some img, None) ->
    (i, img) ∈ built s.
Proof.
  intros Hv HW s Hp i img Hi Hok.
  pose proof (run_Inv cfg Hv sched) as HI. fold (run cfg sched) in HI. fold s in HI.
  pose proof (Inv_Facts cfg Hv s HI) as HF.
  destruct (Facts_NoDup cfg s HF) as (Hnf & Hnp & Hna).
  destruct HF as [Q R F T P M Bu Pd S].
  assert (Forall (fun d => d = fetch cfg (Index d)) (arrived s)) as Ta.
  { rewrite P in T. rewrite !Forall_app in T. tauto. }
  destruct (after_build_sealed cfg s HI Hp) as (Hrc & Hrb & Hvis).
  destruct (completed cfg Hv s HI HW Hrc) as [Hfe Hpu].
  rewrite Bu, Hvis. apply elem_of_ordered. split.
  { apply elem_of_seqZ. unfold capacity. lia. }
  rewrite P, Hrb, app_nil_r in Hpu.
  assert (i ∈ Index <$> arrived s) as Hin.
  { rewrite Hpu. apply elem_of_seqZ. unfold capacity. lia. }
  apply list_elem_of_fmap in Hin as (d & -> & Hd).
  rewrite Forall_forall in Ta. pose proof (Ta d Hd) as Hd'.
  rewrite fetch_DownloadImage, <- Hd' in Hok. injection Hok as Hi' He.
  rewrite M, <- Hi'. by apply collect_lookup_2.
Qed.

(** C1. In every run, at every moment, the pairs handed to [AddImageToPDF]
    are strictly ascending by index, each of them is an index of the range
    with the image its download returned, and the map holds no [nil] image;
    once the ordered loop is over, every index of the range whose download
    succeeded has been handed over; an index whose download failed is never
    among them. And the loop does get over: the process does not die, and
    every run can be carried on to the return of [main], where the pairs
    handed over are exactly the indices of the range whose download
    succeeded, in ascending order, each with its image. *)
Theorem C1_ordered_output (sched : list Thread) :
  ValidConfig cfg -> channels_made cfg = true -> 1 <= WorkerCount cfg ->
  let s := run cfg sched in
  StronglySorted Z.lt (built s).*1 /\
  (forall i img, (i, img) ∈ built s ->
     first_index <= i <= last_index /\
     DownloadImage (ImageURL cfg i) = (Some img, None)) /\
  (after_build (pc s) -> forall i img,
     first_index <= i <= last_index ->
     DownloadImage (ImageURL cfg i) = (Some img, None) ->
     (i, img) ∈ built s) /\
  (forall i err, DownloadImage (ImageURL cfg i) = (None, Some err) ->
     i ∉ (built s).*1) /\
  (forall i, imageMap s !! i <> Some None) /\
  pc s <> MPanic /\
  (exists rest, let s' := run cfg (sched ++ rest) in
     pc s' = MExit /\
     built s' = expected_output cfg /\
     forall i img, first_index <= i <= last_index ->
       DownloadImage (ImageURL cfg i) = (Some img, None) ->
       (i, img) ∈ built s').
Proof.
  intros Hv Hmade HW s.
  pose proof (run_Inv cfg Hv sched) as HI. fold (run cfg sched) in HI. fold s in HI.
  pose proof (Inv_Facts cfg Hv s HI) as HF.
  destruct (Facts_NoDup cfg s HF) as (Hnf & Hnp & Hna).
  destruct HF as [Q R F T P M Bu Pd S].
  assert (Forall (fun d => d = fetch cfg (Index d)) (arrived s)) as Ta.
  { rewrite P in T. rewrite !Forall_app in T. tauto. }
  assert (forall i img, (i, img) ∈ built s ->
            first_index <= i <= last_index /\
            DownloadImage (ImageURL cfg i) = (Some img, None)) as Hsound.
  { intros i img Hin. rewrite Bu in Hin. apply elem_of_ordered in Hin as [_ Hm].
    rewrite M in Hm. apply collect_lookup_1 in Hm as (d & Hd & <- & He & Hi).
    rewrite Forall_forall in Ta. pose proof (Ta d Hd) as Hd'.
    split.
    - apply R. rewrite F, fmap_app, P, fmap_app.
      apply elem_of_app. left. apply elem_of_app. left.
      by apply list_elem_of_fmap_2.
    - rewrite fetch_DownloadImage, <- Hd'. by rewrite Hi, He. }
  destruct (run_completes sched Hv Hmade) as [Hnopanic [rest Hrest]].
  split; [|split; [done|split; [|split; [|split; [|split; [done|]]]]]].
  - rewrite Bu. apply ordered_sorted, seqZ_sorted.
  - by apply built_complete.
  - intros i err Herr Hin.
    apply list_elem_of_fmap in Hin as ([j img] & -> & Hin). simpl in Herr.
    destruct (Hsound j img Hin) as [_ Hok]. congruence.
  - intros i. rewrite M. by apply (collect_no_nil cfg).
  - exists rest. simpl.
    assert (after_build (pc (run cfg (sched ++ rest)))) as Hab by (right; by right).
    split; [done|]. split; [by apply finished_built|].
    by apply (built_complete (sched ++ rest)).
Qed.

(** C2. In every run no index is ever fetched twice and only indices of the
    range are fetched; every result published carries what [DownloadImage]
    returned for its index, and no index is published twice; once [results]
    is sealed, [DownloadImage] has been called on every index of the range
    exactly once (in the order of the range) and exactly one result per
    index has been published. And [results] does get sealed: the process
    does not die, and every run can be carried on to a state in which
    [results] is sealed, every index of the range has been fetched once and
    one result per index has been published. *)
Theorem C2_each_index_fetched_once (sched : list Thread) :
  ValidConfig cfg -> channels_made cfg = true -> 1 <= WorkerCount cfg ->
  let s := run cfg sched in
  NoDup (fetched s) /\
  (forall i, i ∈ fetched s -> first_index <= i <= last_index) /\
  NoDup (Index <$> published s) /\
  Index <$> published s ⊆+ fetched s /\
  Forall (fun d => d = fetch cfg (Index d)) (published s) /\
  (results_closed s = true ->
     fetched s = seqZ first_index (capacity cfg) /\
     Index <$> published s ≡ₚ seqZ first_index (capacity cfg)) /\
  pc s <> MPanic /\
  (exists rest, let s' := run cfg (sched ++ rest) in
     results_closed s' = true /\
     fetched s' = seqZ first_index (capacity cfg) /\
     NoDup (Index <$> published s') /\
     Index <$> published s' ≡ₚ seqZ first_index (capacity cfg) /\
     Forall (fun d => d = fetch cfg (Index d)) (published s')).
Proof.
  intros Hv Hmade HW s.
  assert (forall sc, let s := run cfg sc in
            NoDup (fetched s) /\
            (forall i, i ∈ fetched s -> first_index <= i <= last_index) /\
            NoDup (Index <$> published s) /\
            Index <$> published s ⊆+ fetched s /\
            Forall (fun d => d = fetch cfg (Index d)) (published s) /\
            (results_closed s = true ->
               fetched s = seqZ first_index (capacity cfg) /\
               Index <$> published s ≡ₚ seqZ first_index (capacity cfg))) as Hall.
  { intros sc s0.
    pose proof (run_Inv cfg Hv sc) as HI. fold (run cfg sc) in HI. fold s0 in HI.
    pose proof (Inv_Facts cfg Hv s0 HI) as HF.
    destruct (Facts_NoDup cfg s0 HF) as (Hnf & Hnp & Hna).
    destruct HF as [Q R F T P M Bu Pd S].
    split; [done|]. split; [done|]. split; [done|]. split; [|split].
    - rewrite F, fmap_app. apply submseteq_inserts_r. done.
    - rewrite Forall_app in T. tauto.
    - intros Hrc. by apply completed. }
  destruct (Hall sched) as (H1 & H2 & H3 & H4 & H5 & H6).
  destruct (run_completes sched Hv Hmade) as [Hnopanic [rest Hrest]].
  repeat (split; [done|]).
  exists rest. simpl.
  destruct (Hall (sched ++ rest)) as (_ & _ & G3 & _ & G5 & G6).
  assert (results_closed (run cfg (sched ++ rest)) = true) as Hrc.
  { eapply after_build_sealed; [by apply run_Inv|]. right; by right. }
  destruct (G6 Hrc) as [G7 G8]. done.
Qed.

(** C5. In every run: whenever [results] is sealed, every worker has
    returned (all [WorkerCount] of them, and the wait group is at zero); the
    step that seals it is taken by the goroutine that waited, in a state in
    which every worker has already returned; and [main] leaves the
    collecting loop only by seeing [results] sealed and drained. *)
Theorem C5_sealed_after_workers (sched : list Thread) :
  ValidConfig cfg ->
  let s := run cfg sched in
  (results_closed s = true ->
     Forall (fun w => wpc w = WExited) (workers s) /\
     Z.of_nat (length (workers s)) = Z.max 0 (WorkerCount cfg) /\
     wg s = 0) /\
  (forall t s', step cfg t s = Some s' ->
     results_closed s = false -> results_closed s' = true ->
     t = TWaiter /\ Forall (fun w => wpc w = WExited) (workers s) /\
     Z.of_nat (length (workers s)) = Z.max 0 (WorkerCount cfg)) /\
  (forall t s', step cfg t s = Some s' ->
     pc s = MCollect -> pc s' <> MCollect ->
     t = TMain /\ results_closed s = true /\ results_buf s = [] /\
     pc s' = MBuild first_index).
Proof.
  intros Hv s.
  pose proof (run_Inv cfg Hv sched) as HI. fold (run cfg sched) in HI. fold s in HI.
  pose proof (Inv_Facts cfg Hv s HI) as HF.
  split; [|split].
  - intros Hrc. destruct (fa_sealed _ _ HF Hrc) as (Ha & Hl & Hg & _).
    split; [by apply alive_zero_exited|done].
  - intros t s' Hst Hrc Hrc'.
    pose proof (Inv_step cfg Hv t s s' HI Hst) as HI'.
    pose proof (Inv_Facts cfg Hv s' HI') as HF'.
    destruct (fa_sealed _ _ HF' Hrc') as (Ha & Hl & _).
    clear HI HF HI' HF'. revert Hst Hrc Hrc' Ha Hl. generalize s. clear s.
    intros s Hst Hrc Hrc' Ha Hl.
    destruct s as [p ws wt jb jc rb rc g m d out fe pu ar bu].
    unfold step, main_step, worker_step, waiter_step, collect_one, build_one,
      advance, print, set_worker in Hst; simpl in Hst.
    repeat (case_match; simplify_eq/=); try done.
    split; [done|]. split; [by apply alive_zero_exited|done].
  - intros t s' Hst Hp Hp'.
    assert (pc s' <> MPanic) as Hnp.
    { intros Hpanic. destruct (step_panic cfg t s s' HI Hst Hpanic) as [Hcap _].
      assert (pc s <> MPanic) as Hrun by (by rewrite Hp).
      destruct (Inv_running cfg s HI Hrun) as ([_ HM _ _ _ _ _ _] & _).
      rewrite Hp in HM. simpl in HM. rewrite HM in Hcap by lia. done. }
    clear HI HF. revert Hst Hp Hp' Hnp. generalize s. clear s.
    intros s Hst Hp Hp' Hnp.
    destruct s as [p ws wt jb jc rb rc g m d out fe pu ar bu].
    simpl in Hp. subst p.
    unfold step, main_step, worker_step, waiter_step, collect_one, build_one,
      advance, print, set_worker in Hst; simpl in Hst.
    repeat (case_match; simplify_eq/=); try done.
Qed.


(** C4. Feed the collector two arrival orders of the same results, no index
    occurring twice: after any number of steps of [main] the pairs handed to
    [AddImageToPDF], the document and the place in the code are the same. *)
Theorem C4_arrival_order_irrelevant (n : nat) (rs rs' : list ImageData) :
  NoDup (Index <$> rs) -> rs ≡ₚ rs' ->
  built (collector_run cfg n rs) = built (collector_run cfg n rs') /\
  pdf (collector_run cfg n rs) = pdf (collector_run cfg n rs') /\
  pc (collector_run cfg n rs) = pc (collector_run cfg n rs').
Proof.
  intros Hnd Hperm. unfold collector_run.
  pose proof (Permutation_length Hperm) as Hlen.
  destruct (decide (n <= length rs)%nat) as [Hn|Hn].
  - destruct (collect_phase cfg n rs (collector_fed rs) eq_refl eq_refl Hn)
      as (H1 & _ & _ & H4 & H5 & _).
    destruct (collect_phase cfg n rs' (collector_fed rs') eq_refl eq_refl ltac:(lia))
      as (H1' & _ & _ & H4' & H5' & _).
    rewrite H1, H4, H5, H1', H4', H5'. done.
  - replace n with (length rs + (n - length rs))%nat by lia.
    rewrite replicate_add, !exec_app.
    destruct (collect_phase cfg (length rs) rs (collector_fed rs) eq_refl eq_refl
                ltac:(lia)) as (H1 & H2 & H3 & H4 & H5 & H6).
    destruct (collect_phase cfg (length rs) rs' (collector_fed rs') eq_refl eq_refl
                ltac:(lia)) as (H1' & H2' & H3' & H4' & H5' & H6').
    rewrite drop_ge in H2, H2' by lia. rewrite take_ge in H3, H3' by lia.
    simpl in *.
    match goal with
    | |- built (exec cfg _ ?a) = built (exec cfg _ ?b) /\ _ =>
        assert (view (exec cfg (replicate (n - length rs) TMain) a) =
                view (exec cfg (replicate (n - length rs) TMain) b)) as Hview
    end.
    { apply exec_main_view; [|rewrite H1; simpl; lia].
      unfold view. rewrite H1, H2, H3, H4, H5, H6, H1', H2', H3', H4', H5', H6'.
      fold (collect rs). fold (collect rs'). by rewrite (collect_perm rs rs'). }
    unfold view in Hview. injection Hview. intros. repeat split; congruence.
Qed.

(** C8. Once the channels are made, and with at least one worker, no
    failure of a download, of a decoding, of an encoding or of the final
    write stops a run: the process never dies, never deadlocks, no
    execution goes on for ever, and every run can be carried on to the
    return of [main]. When [main] has returned, [DownloadImage] was called
    on every index; every failed download is the tagged result of its own
    index and was reported; every image that was downloaded was handed to
    [AddImageToPDF] whatever happened to the others; every encoding error
    was reported and the document that was closed and written holds the
    pages of exactly the images that could be encoded; a failed write was
    reported and the run still ended with the last line printed. *)
Theorem C8_best_effort (sched : list Thread) :
  ValidConfig cfg -> channels_made cfg = true -> 1 <= WorkerCount cfg ->
  let s := run cfg sched in
  pc s <> MPanic /\
  (running s = true -> exists t s', step cfg t s = Some s') /\
  (forall n s', nsteps (steps cfg) n s s' -> (n <= measure cfg s)%nat) /\
  (exists rest, pc (run cfg (sched ++ rest)) = MExit) /\
  (pc s = MExit ->
     fetched s = seqZ first_index (capacity cfg) /\
     (forall i err, first_index <= i <= last_index ->
        DownloadImage (ImageURL cfg i) = (None, Some err) ->
        mkImageData i None (Some err) ∈ published s /\
        download_error_line i err ∈ stdout s) /\
     (forall i img, first_index <= i <= last_index ->
        DownloadImage (ImageURL cfg i) = (Some img, None) ->
        (i, img) ∈ built s) /\
     (forall i img err, (i, img) ∈ built s -> png_Encode img = inr err ->
        add_error_line i ("failed to encode image: " +:+ err) ∈ stdout s) /\
     pdf s = (saved (filter (fun c => encodes c = true) (built s))).1 /\
     (forall err, (saved (built s)).2 = Some err ->
        save_error_line err ∈ stdout s) /\
     last (stdout s) = Some success_line).
Proof.
  intros Hv Hcap HW s.
  destruct (run_completes sched Hv Hcap) as [Hnp Hex]. fold s in Hnp.
  pose proof (run_Inv cfg Hv sched) as HI. fold (run cfg sched) in HI. fold s in HI.
  split; [done|]. split; [by apply progress|].
  split; [intros n s' Hn; by eapply run_bounded|]. split; [done|].
  intros Hexit.
  pose proof (Inv_Facts cfg Hv s HI) as [Q R F T P M Bu Pd S].
  destruct (Inv_running cfg s HI Hnp) as (_ & _ & _ & _ & [O1 O2 O3 O4]).
  assert (after_build (pc s)) as Hab by (right; by right).
  destruct (after_build_sealed cfg s HI Hab) as (Hrc & Hrb & Hvis).
  destruct (completed cfg Hv s HI HW Hrc) as [Hfe Hpu].
  pose proof (built_complete sched Hv HW Hab) as Hcomplete.
  split; [done|]. split; [|split; [by apply Hcomplete|split; [done|split; [|split]]]].
  - intros i err Hi Herr.
    assert (i ∈ Index <$> published s) as Hin.
    { rewrite Hpu. apply elem_of_seqZ. unfold capacity. lia. }
    apply list_elem_of_fmap in Hin as (d & -> & Hd).
    assert (d = fetch cfg (Index d)) as Hd'.
    { rewrite Forall_app, Forall_forall in T. by apply T. }
    assert (d = mkImageData (Index d) None (Some err)) as Hd''.
    { rewrite Hd' at 1. unfold fetch. by rewrite Herr. }
    split; [by rewrite <- Hd''|].
    apply (O1 d); [|by rewrite Hd''].
    rewrite P, Hrb, app_nil_r in Hd. done.
  - rewrite Pd, Hexit. simpl. unfold saved. by rewrite <- pages_encodes.
  - intros err Herr. destruct (O4 Hexit) as [pre ->]. rewrite Herr. simpl.
    set_solver.
  - destruct (O4 Hexit) as [pre ->]. rewrite app_assoc. apply last_snoc.
Qed.

(** C9. When [png.Encode] fails on an image, [AddImageToPDF] hands back the
    document it was given together with the error; and whenever it hands
    back another document, or no error, the image was encoded and the
    document is the given one with a page added and the image placed. *)
Theorem C9_append_atomic (pdf0 : Fpdf) (img : Image) (index : Z) :
  (forall err, png_Encode img = inr err ->
     AddImageToPDF pdf0 img index =
       (pdf0, Some ("failed to encode image: " +:+ err))) /\
  (forall pdf1 r, AddImageToPDF pdf0 img index = (pdf1, r) ->
     pdf1 <> pdf0 \/ r = None ->
     exists buf, png_Encode img = inl buf /\ r = None /\
       pdf1 = PlaceImage
                (RegisterImageReader (AddPage pdf0)
                   ("image_" +:+ pretty index +:+ ".png") "PNG" buf)
                ("image_" +:+ pretty index +:+ ".png") 10 10
                (inject_Z (Dx (Bounds img)) / 4)%Q
                (inject_Z (Dy (Bounds img)) / 4)%Q).
Proof.
  unfold AddImageToPDF. split.
  - intros err ->. done.
  - intros pdf1 r. destruct (png_Encode img) as [buf|err].
    + intros [= <- <-] _. by exists buf.
    + intros [= <- <-] [H|H]; done.
Qed.

(** C10. Once the channels are made, the process does not die, it cannot
    get stuck, no execution goes on for ever, and every run can be carried
    on to the return of [main]; and when [main] has returned, the printed
    lines end with the success line, with the report of the failed write
    right before it when the write failed; nothing runs after it. *)
Theorem C10_success_line_always (sched : list Thread) :
  ValidConfig cfg -> channels_made cfg = true ->
  let s := run cfg sched in
  pc s <> MPanic /\
  (running s = true -> exists t s', step cfg t s = Some s') /\
  (forall n s', nsteps (steps cfg) n s s' -> (n <= measure cfg s)%nat) /\
  (exists rest, pc (run cfg (sched ++ rest)) = MExit) /\
  (pc s = MExit ->
     (exists pre, stdout s =
        pre ++ save_report (saved (built s)).2 ++ [success_line]) /\
     forall t, step cfg t s = None).
Proof.
  intros Hv Hcap s.
  destruct (run_completes sched Hv Hcap) as [Hnp Hex]. fold s in Hnp.
  pose proof (run_Inv cfg Hv sched) as HI. fold (run cfg sched) in HI. fold s in HI.
  split; [done|]. split; [by apply progress|].
  split; [intros n s' Hn; by eapply run_bounded|]. split; [done|].
  intros Hexit.
  destruct (Inv_running cfg s HI Hnp) as (_ & _ & _ & _ & [_ _ _ O4]).
  split; [by apply O4|].
  intros t. unfold step, running. by rewrite Hexit.
Qed.

Lemma ordered_empty (ids : list Z) : ordered ∅ ids = [].
Proof.
  induction ids as [|i ids IH]; [done|].
  unfold ordered in *. simpl. by rewrite lookup_empty.
Qed.

(** A range that is empty by exactly one ([first = last + 1]) gives channels
    of size 0: nothing is fetched, nothing is handed to [AddImageToPDF], and
    the run can be carried on to the return of [main]. The document stays
    as [gofpdf.New] made it until [OutputFileAndClose] closes it. *)
Lemma empty_by_one_completes (sched : list Thread) :
  ValidConfig cfg -> channels_made cfg = true -> last_index = first_index - 1 ->
  let s := run cfg sched in
  fetched s = [] /\ built s = [] /\
  pdf s = document (pc s) [] /\
  pc s <> MPanic /\ exists rest, pc (run cfg (sched ++ rest)) = MExit.
Proof.
  intros Hv Hcap He s.
  destruct (run_completes sched Hv Hcap) as [Hnp Hex]. fold s in Hnp.
  pose proof (run_Inv cfg Hv sched) as HI. fold (run cfg sched) in HI. fold s in HI.
  pose proof (Inv_Facts cfg Hv s HI) as [Q R F T P M Bu Pd S].
  assert (fetched s = []) as Hfe.
  { destruct (fetched s) as [|i l]; [done|].
    assert (first_index <= i <= last_index) by (apply R; set_solver). lia. }
  assert (arrived s = []) as Har.
  { rewrite Hfe in F. apply Permutation_nil in F.
    apply fmap_nil_inv in F. apply app_eq_nil in F as [F _].
    rewrite F in P. symmetry in P. by apply app_eq_nil in P as [? _]. }
  assert (built s = []) as Hbu.
  { rewrite Bu, M, Har. apply ordered_empty. }
  split; [done|]. split; [done|]. split; [by rewrite Pd, Hbu|]. done.
Qed.

(** A process whose channels cannot be made goes no further than the
    [make]: the first step of [main] ends it. *)
Lemma not_made_dies (sched : list Thread) :
  channels_made cfg = false ->
  (TMain ∉ sched -> run cfg sched = init) /\
  (TMain ∈ sched -> run cfg sched = set_pc MPanic init).
Proof.
  intros Hno. induction sched as [|t sc IH] using rev_ind.
  - split; [done|]. by intros ?%elem_of_nil.
  - unfold run in *. rewrite exec_snoc. destruct IH as [IH1 IH2].
    destruct (decide (TMain ∈ sc)) as [Hin|Hin].
    + rewrite (IH2 Hin). split; [set_solver|]. intros _. done.
    + rewrite (IH1 Hin). split.
      * intros Hn. destruct t; [set_solver| |]; done.
      * intros Ht. destruct t; [|set_solver..].
        unfold step, main_step. simpl. by rewrite Hno.
Qed.

End Pipeline.

(** C3. With [FirstImageIndex = 3] and [LastImageIndex = 1] the size given to
    [make(chan int, ...)] is [-1]: whatever the schedule, the process gets no
    further than the creation of the channels, and dies there as soon as
    [main] is run; nothing is printed and no document is written. *)
Theorem C3_negative_size_panics {W : World} {Fpdf : Type} {B : PdfBuilder Fpdf}
    (sched : list Thread) :
  let s := run Demo.backwards_config sched in
  capacity Demo.backwards_config = -1 /\
  (TMain ∉ sched -> s = init) /\
  (TMain ∈ sched -> s = set_pc MPanic init) /\
  pc s <> MExit /\ stdout s = [].
Proof.
  simpl. split; [reflexivity|].
  destruct (not_made_dies Demo.backwards_config sched) as [H1 H2]; [done|].
  split; [done|]. split; [done|].
  destruct (decide (TMain ∈ sched)) as [Hin|Hin].
  - rewrite (H2 Hin). done.
  - rewrite (H1 Hin). done.
Qed.

(** The same end for a range of 2^50 indices: [makechan] refuses the size,
    whatever memory the machine has. *)
Lemma huge_range_dies {W : World} {Fpdf : Type} {B : PdfBuilder Fpdf}
    (sched : list Thread) :
  let s := run Demo.huge_config sched in
  channels_made Demo.huge_config = false /\
  (TMain ∈ sched -> pc s = MPanic) /\ pc s <> MExit.
Proof.
  simpl. assert (channels_made Demo.huge_config = false) as Hno by done.
  split; [done|].
  destruct (not_made_dies Demo.huge_config sched Hno) as [H1 H2].
  destruct (decide (TMain ∈ sched)) as [Hin|Hin].
  - rewrite (H2 Hin). done.
  - rewrite (H1 Hin). done.
Qed.

(* ===================================================================== *)
(** ** The theorems at work on the small instance *)
(* ===================================================================== *)

Section SmallInstance.

Import Demo.

#[local] Existing Instance stub_world.
#[local] Existing Instance small_builder.

Lemma small_config_valid : ValidConfig small_config.
Proof. unfold ValidConfig, int_min, int_max. simpl. lia. Qed.

(** Both channels of the small instance, of size 5, are made. *)
Example small_channels_made : channels_made small_config = true.
Proof. reflexivity. Qed.

(** With the constants of the source the channels have size 56. *)
Example source_channels_made :
  capacity source_config = 56 /\ channels_made source_config = true.
Proof. split; reflexivity. Qed.

(** The run of the small instance: indices 1, 3 and 5 reach the builder,
    in this order. *)
Example small_run_built : (built small_run).*1 = [1; 3; 5].
Proof. vm_compute. reflexivity. Qed.

Example small_run_fetched : fetched small_run = [1; 2; 3; 4; 5].
Proof. vm_compute. reflexivity. Qed.

(** Index 3 fails to encode, so its page is missing. *)
Example small_run_pages : pdf small_run = [["image_1.png"]; ["image_5.png"]].
Proof. vm_compute. reflexivity. Qed.

Example small_run_stdout :
  stdout small_run =
  ["Worker 1: Downloading image 1...";
   "Worker 2: Downloading image 2...";
   "Worker 1: Downloading image 3...";
   "Worker 2: Downloading image 4...";
   "Worker 1: Downloading image 5...";
   "Error downloading image 2: failed to download image: connection refused";
   "Error downloading image 4: failed to decode image: image: unknown format";
   "Error adding image 3 to PDF: failed to encode image: invalid image size";
   "Error saving PDF: disk full";
   "PDF created successfully as final_output.pdf"].
Proof. vm_compute. reflexivity. Qed.

(** Eight rounds into the small instance: [main] is still queueing jobs,
    nothing has been collected, no page added. *)
Example small_run_midway :
  let s := run small_config (round_robin 3 8) in
  pc s = MProduce 4 /\ fetched s = [1; 2; 3] /\ built s = [] /\
  results_closed s = false.
Proof. vm_compute. repeat split; reflexivity. Qed.

Lemma C1_ordered_output_witness :
  let s := run small_config (round_robin 3 8) in
  StronglySorted Z.lt (built s).*1 /\
  (forall i img, (i, img) ∈ built s ->
     1 <= i <= 5 /\ DownloadImage (ImageURL small_config i) = (Some img, None)) /\
  (after_build (pc s) -> forall i img,
     1 <= i <= 5 ->
     DownloadImage (ImageURL small_config i) = (Some img, None) ->
     (i, img) ∈ built s) /\
  (forall i err, DownloadImage (ImageURL small_config i) = (None, Some err) ->
     i ∉ (built s).*1) /\
  (forall i, imageMap s !! i <> Some None) /\
  pc s <> MPanic /\
  (exists rest, let s' := run small_config (round_robin 3 8 ++ rest) in
     pc s' = MExit /\
     built s' = expected_output small_config /\
     forall i img, 1 <= i <= 5 ->
       DownloadImage (ImageURL small_config i) = (Some img, None) ->
       (i, img) ∈ built s').
Proof.
  apply (C1_ordered_output small_config (round_robin 3 8)).
  - unfold ValidConfig, int_min, int_max. simpl. lia.
  - reflexivity.
  - simpl. lia.
Defined.

(** What the finished run of the small instance has handed over is what
    the downloads give: the images of 1, 3 and 5. *)
Example small_run_expected :
  built small_run = expected_output small_config /\
  (expected_output small_config).*1 = [1; 3; 5].
Proof. vm_compute. split; reflexivity. Qed.

Lemma C2_each_index_fetched_once_witness :
  let s := run small_config (round_robin 3 8) in
  NoDup (fetched s) /\
  (forall i, i ∈ fetched s -> 1 <= i <= 5) /\
  NoDup (Index <$> published s) /\
  Index <$> published s ⊆+ fetched s /\
  Forall (fun d => d = fetch small_config (Index d)) (published s) /\
  (results_closed s = true ->
     fetched s = seqZ 1 (capacity small_config) /\
     Index <$> published s ≡ₚ seqZ 1 (capacity small_config)) /\
  pc s <> MPanic /\
  (exists rest, let s' := run small_config (round_robin 3 8 ++ rest) in
     results_closed s' = true /\
     fetched s' = seqZ 1 (capacity small_config) /\
     NoDup (Index <$> published s') /\
     Index <$> published s' ≡ₚ seqZ 1 (capacity small_config) /\
     Forall (fun d => d = fetch small_config (Index d)) (published s')).
Proof.
  apply (C2_each_index_fetched_once small_config (round_robin 3 8)).
  - unfold ValidConfig, int_min, int_max. simpl. lia.
  - reflexivity.
  - simpl. lia.
Defined.

(** At the end of the small run [results] is sealed, and the five indices
    were fetched and published once each. *)
Example small_run_sealed :
  results_closed small_run = true /\
  fetched small_run = [1; 2; 3; 4; 5] /\
  Index <$> published small_run = [1; 2; 3; 4; 5].
Proof. vm_compute. repeat split; reflexivity. Qed.

Lemma C4_arrival_order_irrelevant_witness :
  built (collector_run small_config 10 some_results) =
    built (collector_run small_config 10 shuffled_results) /\
  pdf (collector_run small_config 10 some_results) =
    pdf (collector_run small_config 10 shuffled_results) /\
  pc (collector_run small_config 10 some_results) =
    pc (collector_run small_config 10 shuffled_results).
Proof.
  apply (C4_arrival_order_irrelevant small_config 10 some_results shuffled_results).
  - vm_compute. repeat constructor; set_solver.
  - unfold some_results, shuffled_results.
    apply Permutation_sym, (Permutation_cons_append [_; _]).
Defined.

(** Both orders give the pairs for 1, 3 and 5, ascending. *)
Example shuffled_results_built :
  (built (collector_run small_config 10 shuffled_results)).*1 = [1; 3; 5].
Proof. vm_compute. reflexivity. Qed.

Lemma C5_sealed_after_workers_witness :
  let s := small_run in
  (results_closed s = true ->
     Forall (fun w => wpc w = WExited) (workers s) /\
     Z.of_nat (length (workers s)) = Z.max 0 (WorkerCount small_config) /\
     wg s = 0) /\
  (forall t s', step small_config t s = Some s' ->
     results_closed s = false -> results_closed s' = true ->
     t = TWaiter /\ Forall (fun w => wpc w = WExited) (workers s) /\
     Z.of_nat (length (workers s)) = Z.max 0 (WorkerCount small_config)) /\
  (forall t s', step small_config t s = Some s' ->
     pc s = MCollect -> pc s' <> MCollect ->
     t = TMain /\ results_closed s = true /\ results_buf s = [] /\
     pc s' = MBuild 1).
Proof.
  apply (C5_sealed_after_workers small_config (round_robin 3 30)).
  unfold ValidConfig, int_min, int_max. simpl. lia.
Defined.

Lemma C8_best_effort_witness :
  let s := small_run in
  pc s <> MPanic /\
  (running s = true -> exists t s', step small_config t s = Some s') /\
  (forall n s', nsteps (steps small_config) n s s' ->
     (n <= measure small_config s)%nat) /\
  (exists rest, pc (run small_config (round_robin 3 30 ++ rest)) = MExit) /\
  (pc s = MExit ->
     fetched s = seqZ 1 (capacity small_config) /\
     (forall i err, 1 <= i <= 5 ->
        DownloadImage (ImageURL small_config i) = (None, Some err) ->
        mkImageData i None (Some err) ∈ published s /\
        download_error_line i err ∈ stdout s) /\
     (forall i img, 1 <= i <= 5 ->
        DownloadImage (ImageURL small_config i) = (Some img, None) ->
        (i, img) ∈ built s) /\
     (forall i img err, (i, img) ∈ built s -> png_Encode img = inr err ->
        add_error_line i ("failed to encode image: " +:+ err) ∈ stdout s) /\
     pdf s = (saved (filter (fun c => encodes c = true) (built s))).1 /\
     (forall err, (saved (built s)).2 = Some err ->
        save_error_line err ∈ stdout s) /\
     last (stdout s) = Some success_line).
Proof.
  apply (C8_best_effort small_config (round_robin 3 30)).
  - unfold ValidConfig, int_min, int_max. simpl. lia.
  - reflexivity.
  - simpl. lia.
Defined.

Lemma C9_append_atomic_witness :
  AddImageToPDF [["image_1.png"]] blank 3 =
    ([["image_1.png"]], Some "failed to encode image: invalid image size").
Proof.
  apply (proj1 (C9_append_atomic [["image_1.png"]] blank 3)).
  reflexivity.
Defined.

Lemma C10_success_line_always_witness :
  let s := small_run in
  pc s <> MPanic /\
  (running s = true -> exists t s', step small_config t s = Some s') /\
  (forall n s', nsteps (steps small_config) n s s' ->
     (n <= measure small_config s)%nat) /\
  (exists rest, pc (run small_config (round_robin 3 30 ++ rest)) = MExit) /\
  (pc s = MExit ->
     (exists pre, stdout s =
        pre ++ save_report (saved (built s)).2 ++ [success_line]) /\
     forall t, step small_config t s = None).
Proof.
  apply (C10_success_line_always small_config (round_robin 3 30)).
  - unfold ValidConfig, int_min, int_max. simpl. lia.
  - reflexivity.
Defined.

Example small_run_exits : pc small_run = MExit.
Proof. vm_compute. reflexivity. Qed.

(** The range that is empty by one: the run ends with no image placed; the
    document is closed with the one blank page a document without pages
    gets, the failed write is reported and the last line printed. *)
Example empty_run_result :
  pc empty_run = MExit /\ built empty_run = [] /\ pdf empty_run = [[]] /\
  stdout empty_run = ["Error saving PDF: disk full";
                      "PDF created successfully as final_output.pdf"].
Proof. vm_compute. repeat split; reflexivity. Qed.

End SmallInstance.

(* ===================================================================== *)
(** * More of the program *)
(* ===================================================================== *)
(* ===================================================================== *)
(** ** More about the conversion *)
(* ===================================================================== *)

Section Conversion.

Lemma PIn_Intersect x y r s :
  PIn (mkPoint x y) (Intersect r s) =
  PIn (mkPoint x y) r && PIn (mkPoint x y) s.
Proof.
  apply eq_true_iff_eq. rewrite andb_true_iff. split.
  - apply Intersect_subset.
  - intros [Hr Hs]. apply PIn_spec in Hr, Hs.
    unfold Intersect. destruct (Empty _) eqn:HE.
    + exfalso. unfold Empty in HE. simpl in HE.
      apply orb_true_iff in HE. rewrite !Z.leb_le in HE. lia.
    + apply PIn_spec. simpl. lia.
Qed.

(** Where [convertTo8Bit] draws: the points of the frame whose distance to
    the frame's corner is again a point of the frame. *)
Lemma PIn_drawn img x y :
  PIn (mkPoint x y) (drawn img) =
  PIn (mkPoint x y) (Bounds img) &&
  PIn (mkPoint (x - X (Min (Bounds img))) (y - Y (Min (Bounds img)))) (Bounds img).
Proof.
  unfold drawn, clip. rewrite !PIn_Intersect. simpl.
  rewrite andb_diag. f_equal.
  apply eq_true_iff_eq. rewrite !PIn_spec. simpl. lia.
Qed.

(** X1. For every image with well-formed bounds, [convertTo8Bit] keeps the
    bounds, and the pixel it leaves at a point (x, y) of the bounds is the
    source pixel at (x - Min.X, y - Min.Y) reduced to 8 bits when that point
    lies in the bounds too, and transparent black otherwise: the image is
    moved by the offset of its bounds from the origin. *)
Theorem X1_convertTo8Bit_pixels (img : Image) :
  WellFormed (Bounds img) ->
  exists p : RGBA,
    convertTo8Bit img = RGBAImage p /\ Rect p = Bounds img /\
    forall x y, PIn (mkPoint x y) (Bounds img) = true ->
      RGBAAt p x y =
        if PIn (mkPoint (x - X (Min (Bounds img))) (y - Y (Min (Bounds img))))
               (Bounds img)
        then to_RGBA8 (At img (x - X (Min (Bounds img))) (y - Y (Min (Bounds img))))
        else mkRGBA8 0 0 0 0.
Proof.
  intros Hwf. destruct (convertTo8Bit_spec img Hwf) as (p & Hp & HR & _ & _ & HA).
  exists p. split; [done|]. split; [done|].
  intros x y Hin. rewrite HA, PIn_drawn, Hin. done.
Qed.

Lemma X1_convertTo8Bit_pixels_witness :
  exists p : RGBA,
    convertTo8Bit Demo.offset_image = RGBAImage p /\
    Rect p = Bounds Demo.offset_image /\
    forall x y, PIn (mkPoint x y) (Bounds Demo.offset_image) = true ->
      RGBAAt p x y =
        if PIn (mkPoint (x - X (Min (Bounds Demo.offset_image)))
                        (y - Y (Min (Bounds Demo.offset_image))))
               (Bounds Demo.offset_image)
        then to_RGBA8 (At Demo.offset_image
                          (x - X (Min (Bounds Demo.offset_image)))
                          (y - Y (Min (Bounds Demo.offset_image))))
        else mkRGBA8 0 0 0 0.
Proof.
  apply (X1_convertTo8Bit_pixels Demo.offset_image).
  unfold WellFormed. simpl. lia.
Defined.

(** The image with bounds (1,1)-(3,3): only its pixel (1,1) survives, at
    (2,2). *)
Example offset_image_converted :
  convertTo8Bit Demo.offset_image =
  RGBAImage (mkRGBA [0; 0; 0; 0;  0; 0; 0; 0;  0; 0; 0; 0;  11; 0; 0; 255] 8
                    (mkRect (mkPoint 1 1) (mkPoint 3 3))).
Proof. vm_compute. reflexivity. Qed.

(** Two packed buffers over the same rectangle with the same pixels are the
    same buffer. *)
Lemma packed_ext (p q : RGBA) :
  packed p -> packed q -> Rect p = Rect q -> WellFormed (Rect p) ->
  (forall x y, PIn (mkPoint x y) (Rect p) = true -> RGBAAt p x y = RGBAAt q x y) ->
  p = q.
Proof.
  intros [Hsp Hlp] [Hsq Hlq] HR [Hwx Hwy] Hpix.
  destruct p as [pp sp rp], q as [pq sq rq]. simpl in *. subst rq.
  rewrite <- Hsq in Hsp. subst sp. f_equal.
  set (w := Dx rp) in *. set (h := Dy rp) in *.
  assert (0 <= w /\ 0 <= h) as [Hw Hh] by (unfold w, h, Dx, Dy; lia).
  apply list_eq. intros i.
  destruct (decide (Z.of_nat i < 4 * w * h)) as [Hi|Hi].
  2: { rewrite !lookup_ge_None_2 by lia. done. }
  assert (0 < w) as Hw0 by nia.
  set (n := Z.of_nat i). set (k := n / 4). set (c := n mod 4).
  assert (n = 4 * k + c /\ 0 <= c < 4) as [Hn Hc].
  { unfold k, c. pose proof (Z.div_mod n 4). pose proof (Z.mod_pos_bound n 4). lia. }
  assert (0 <= k < w * h) as Hk by (unfold n in *; nia).
  set (y := Y (Min rp) + k / w). set (x := X (Min rp) + k mod w).
  assert (k = w * (k / w) + k mod w /\ 0 <= k mod w < w) as [Hkw Hm].
  { pose proof (Z.div_mod k w). pose proof (Z.mod_pos_bound k w). lia. }
  assert (0 <= k / w < h) as Hd.
  { split; [apply Z.div_pos; lia|]. apply Z.div_lt_upper_bound; lia. }
  assert (PIn (mkPoint x y) rp = true) as Hin.
  { apply PIn_spec. unfold x, y, w, h, Dx, Dy in *. lia. }
  specialize (Hpix x y Hin). unfold RGBAAt in Hpix. simpl in Hpix.
  rewrite Hin in Hpix. unfold PixOffset in Hpix. simpl in Hpix.
  replace ((y - Y (Min rp)) * sq + (x - X (Min rp)) * 4) with (4 * k) in Hpix
    by (unfold x, y; rewrite Hsq; fold w; nia).
  assert (byte_at pp n = byte_at pq n) as Hb.
  { injection Hpix as H0 H1 H2 H3.
    assert (c = 0 \/ c = 1 \/ c = 2 \/ c = 3) as [E|[E|[E|E]]] by lia;
      rewrite Hn, E; rewrite ?Z.add_0_r; done. }
  unfold byte_at, n in Hb. rewrite Nat2Z.id in Hb.
  destruct (lookup_lt_is_Some_2 pp i) as [a Ha]; [lia|].
  destruct (lookup_lt_is_Some_2 pq i) as [b Hb']; [lia|].
  rewrite Ha, Hb' in *. simpl in Hb. by subst.
Qed.

(** X2. Converting twice is converting once: for every image whose bounds
    are well formed and start at the origin, as a decoder's do,
    [convertTo8Bit] applied to its own result gives the same bitmap back,
    byte for byte. *)
Theorem X2_convertTo8Bit_twice (img : Image) :
  WellFormed (Bounds img) -> Min (Bounds img) = ZP ->
  convertTo8Bit (convertTo8Bit img) = convertTo8Bit img.
Proof.
  intros Hwf H0.
  destruct (convertTo8Bit_spec img Hwf) as (p & Hp & HR & Hpk & Hb & HA).
  rewrite Hp.
  assert (WellFormed (Bounds (RGBAImage p))) as Hwf' by (simpl; by rewrite HR).
  destruct (convertTo8Bit_spec (RGBAImage p) Hwf') as (q & Hq & HR' & Hqk & _ & HA').
  rewrite Hq. f_equal. simpl in *. symmetry.
  apply packed_ext; [done|done|by rewrite HR'|by rewrite HR|].
  intros x y Hin. rewrite HA'. rewrite PIn_drawn. simpl.
  rewrite HR, H0 in *. simpl. rewrite !Z.sub_0_r, Hin. simpl.
  symmetry. by apply to_RGBA8_RGBA.
Qed.

Lemma X2_convertTo8Bit_twice_witness :
  convertTo8Bit (convertTo8Bit (Demo.solid 49)) = convertTo8Bit (Demo.solid 49).
Proof.
  apply (X2_convertTo8Bit_twice (Demo.solid 49)).
  - unfold WellFormed. simpl. lia.
  - reflexivity.
Defined.

End Conversion.

(** ** Names and addresses built with [fmt.Sprintf] *)

Section Names.

Lemma append_length (s t : string) :
  String.length (s +:+ t) = (String.length s + String.length t)%nat.
Proof. induction s as [|a s IH]; simpl; [done | by rewrite IH]. Qed.

(** A common ending can be struck off. *)
Lemma append_inv_tail (t : string) : forall s1 s2, s1 +:+ t = s2 +:+ t -> s1 = s2.
Proof.
  induction s1 as [|a s1 IH]; intros [|b s2] H; simpl in *; try done.
  - apply (f_equal String.length) in H.
    rewrite !append_length in H. simpl in H. lia.
  - apply (f_equal String.length) in H.
    rewrite !append_length in H. simpl in H. lia.
  - injection H as -> H. f_equal. by apply IH.
Qed.

Lemma framed_inj (pre post : string) (i j : Z) :
  pre +:+ pretty i +:+ post = pre +:+ pretty j +:+ post -> i = j.
Proof.
  intros H. apply (inj (String.append pre)) in H.
  apply append_inv_tail in H. by apply (inj pretty) in H.
Qed.

Lemma ImageURL_inj cfg : Inj (=) (=) (ImageURL cfg).
Proof. intros i j H. by apply framed_inj in H. Qed.

Lemma image_name_inj : Inj (=) (=) image_name.
Proof. intros i j H. by apply framed_inj in H. Qed.

End Names.

Section Results.

Context {W : World} {Fpdf : Type} {B : PdfBuilder Fpdf}.
Variable cfg : Config.

Lemma sorted_lt_NoDup (l : list Z) : StronglySorted Z.lt l -> NoDup l.
Proof.
  induction 1 as [|x l Hl IH Hx]; constructor; [|done].
  intros Hin. rewrite Forall_forall in Hx. specialize (Hx _ Hin). lia.
Qed.

Lemma built_sorted (s : State) : Facts cfg s -> StronglySorted Z.lt (built s).*1.
Proof.
  intros HF. rewrite (fa_built _ _ HF). apply ordered_sorted, seqZ_sorted.
Qed.

(** The page [AddImageToPDF] adds when the encoder accepts the image. *)
Lemma AddImageToPDF_page (pdf0 : Fpdf) (img : Image) (index : Z) (buf : bytes) :
  png_Encode img = inl buf ->
  AddImageToPDF pdf0 img index =
    (PlaceImage (RegisterImageReader (AddPage pdf0) (image_name index) "PNG" buf)
                (image_name index) 10 10
                (inject_Z (Dx (Bounds img)) / 4)%Q (inject_Z (Dy (Bounds img)) / 4)%Q,
     None).
Proof. intros H. unfold AddImageToPDF. by rewrite H. Qed.

(** X3. Source line 79 calls the image name unique: in every run, under
    every schedule, no two calls of [AddImageToPDF] register their image
    under the same name, and the name of a call is the one its page is
    registered and placed under. *)
Theorem X3_image_names_unique (sched : list Thread) :
  ValidConfig cfg ->
  let s := run cfg sched in
  NoDup (image_name <$> (built s).*1) /\
  forall pdf0 img index buf, png_Encode img = inl buf ->
    (AddImageToPDF pdf0 img index).1 =
      PlaceImage (RegisterImageReader (AddPage pdf0) (image_name index) "PNG" buf)
                 (image_name index) 10 10
                 (inject_Z (Dx (Bounds img)) / 4)%Q (inject_Z (Dy (Bounds img)) / 4)%Q.
Proof.
  intros Hv s. split.
  - apply (@NoDup_fmap_2 _ _ image_name image_name_inj).
    apply sorted_lt_NoDup, built_sorted, Inv_Facts, run_Inv; done.
  - intros pdf0 img index buf H. by rewrite (AddImageToPDF_page _ _ _ _ H).
Qed.

(** X4. No address is requested twice: in every run the URLs the workers
    have passed to [DownloadImage] are pairwise different. *)
Theorem X4_urls_requested_once (sched : list Thread) :
  ValidConfig cfg ->
  NoDup (ImageURL cfg <$> fetched (run cfg sched)).
Proof.
  intros Hv. apply (@NoDup_fmap_2 _ _ (ImageURL cfg) (ImageURL_inj cfg)).
  eapply Facts_NoDup, Inv_Facts, run_Inv; done.
Qed.

Lemma fetch_error (i : Z) (err : error) :
  Error (fetch cfg i) = Some err ->
  (exists e, http_Get (ImageURL cfg i) = inr e /\
             err = "failed to download image: " +:+ e) \/
  (exists body e, http_Get (ImageURL cfg i) = inl body /\
                  image_Decode body = inr e /\
                  err = "failed to decode image: " +:+ e).
Proof.
  unfold fetch, DownloadImage.
  destruct (http_Get (ImageURL cfg i)) as [body|e]; simpl.
  - destruct (image_Decode body) as [img|e] eqn:E; intros H; simplify_eq/=.
    right. by exists body, e.
  - intros H; simplify_eq/=. left. by exists e.
Qed.

Lemma fetch_image (i : Z) (img : Image) :
  Image_ (fetch cfg i) = Some img ->
  exists body src, http_Get (ImageURL cfg i) = inl body /\
                   image_Decode body = inl src /\ img = convertTo8Bit src.
Proof.
  unfold fetch, DownloadImage.
  destruct (http_Get (ImageURL cfg i)) as [body|e]; [|intros H; simplify_eq/=].
  destruct (image_Decode body) as [src|e] eqn:E; intros H; simplify_eq/=.
  by exists body, src.
Qed.

(** X5. Every value a worker has sent on [results] carries an index of the
    range and exactly one of an image and an error; the image is the
    converted decoding of what the index's URL returned, and the error is
    one of the two wrapped errors of [DownloadImage]. *)
Theorem X5_results_well_formed (sched : list Thread) (d : ImageData) :
  ValidConfig cfg ->
  d ∈ published (run cfg sched) ->
  FirstImageIndex cfg <= Index d <= LastImageIndex cfg /\
  populated_once d /\
  (forall img, Image_ d = Some img ->
     exists body src, http_Get (ImageURL cfg (Index d)) = inl body /\
                      image_Decode body = inl src /\ img = convertTo8Bit src) /\
  (forall err, Error d = Some err ->
     (exists e, err = "failed to download image: " +:+ e) \/
     (exists e, err = "failed to decode image: " +:+ e)).
Proof.
  intros Hv Hd.
  pose proof (Inv_Facts cfg Hv _ (run_Inv cfg Hv sched)) as HF.
  fold (run cfg sched) in HF.
  pose proof (fa_tagged _ _ HF) as Ht. rewrite Forall_forall in Ht.
  assert (Hin : d ∈ published (run cfg sched) ++ sending (workers (run cfg sched)))
    by (apply elem_of_app; by left).
  specialize (Ht _ Hin). simpl in Ht.
  split; [|split; [|split]].
  - apply (fa_range _ _ HF). rewrite (fa_fetched _ _ HF).
    apply list_elem_of_fmap. eauto.
  - pose proof (f_equal Image_ Ht) as Hi. pose proof (f_equal Error Ht) as He.
    destruct (fetch_populated cfg (Index d)) as [(img & H1 & H2)|(err & H1 & H2)].
    + left. rewrite Hi, He, H1, H2. eauto.
    + right. rewrite Hi, He, H1, H2. eauto.
  - intros img Hi. apply fetch_image. pose proof (f_equal Image_ Ht) as Hi'.
    congruence.
  - intros err He. pose proof (f_equal Error Ht) as He'.
    rewrite He in He'. symmetry in He'.
    destruct (fetch_error _ _ He') as [(e & _ & ->)|(body & e & _ & _ & ->)]; eauto.
Qed.

End Results.

(** ** Channels, the wait group and the end of a run *)

Section Flow.

Context {W : World} {Fpdf : Type} {B : PdfBuilder Fpdf}.
Variable cfg : Config.
Hypothesis Hvalid : ValidConfig cfg.

Lemma held_sending (ws : list Worker) (k : nat) (w : Worker) (d : ImageData) :
  ws !! k = Some w -> wpc w = WSend d -> d ∈ sending ws.
Proof.
  intros Hk Hw. destruct (split_at k ws w w Hk) as (l1 & l2 & -> & _).
  rewrite sending_app, sending_cons. unfold held. rewrite Hw. set_solver.
Qed.

Lemma produced_bounds (s : State) :
  InvMain cfg s -> (1 <= phase (pc s))%nat ->
  0 <= produced cfg (pc s) <= capacity cfg.
Proof.
  intros [_ _ Hc Hk _ _ _ _] Hp. specialize (Hc Hp).
  destruct (pc s); simpl in *; unfold capacity in *; lia.
Qed.

(** What is in flight never exceeds what [main] has handed out. *)
Lemma flow_lengths (s : State) :
  Inv cfg s -> pc s <> MPanic ->
  Z.of_nat (length (fetched s) + length (jobs_buf s)) = Z.max 0 (produced cfg (pc s)) /\
  (length (fetched s) =
     length (arrived s) + length (results_buf s) + length (sending (workers s)))%nat.
Proof.
  intros HI HP.
  destruct (Inv_running cfg s HI HP) as (_ & _ & [F1 F2 F3 F4] & _).
  split.
  - apply (f_equal length) in F1. rewrite length_app, length_seqZ in F1. lia.
  - apply Permutation_length in F3.
    rewrite length_fmap, length_app, F2, length_app in F3. lia.
Qed.

Lemma panic_state (s : State) :
  Inv cfg s -> pc s = MPanic -> s = set_pc MPanic init.
Proof. unfold Inv. intros HI Hp. rewrite Hp in HI. by destruct HI. Qed.

Lemma exit_sealed (s : State) :
  Inv cfg s -> pc s = MExit -> results_closed s = true /\ results_buf s = [].
Proof.
  intros HI Hp. destruct (after_build_sealed cfg s HI) as (? & ? & _); [|done].
  right; by right.
Qed.

(** X6. A send never waits for room. In every run both channels hold at
    most as many values as their capacity; when [main] stands at
    [jobs <- i] the send goes through at once, and so does the send of any
    worker that stands at [results <- ...]. *)
Theorem X6_sends_never_block (sched : list Thread) :
  let s := run cfg sched in
  Z.of_nat (length (jobs_buf s)) <= Z.max 0 (capacity cfg) /\
  Z.of_nat (length (results_buf s)) <= Z.max 0 (capacity cfg) /\
  (forall i, pc s = MProduce i -> i <= LastImageIndex cfg ->
     step cfg TMain s =
       Some (set_pc (MProduce (i + 1)) (set_jobs_buf (jobs_buf s ++ [i]) s))) /\
  (forall k w d, workers s !! k = Some w -> wpc w = WSend d ->
     step cfg (TWorker k) s =
       Some (set_worker k (mkWorker (wid w) WRecv)
            (set_published (published s ++ [d])
            (set_results_buf (results_buf s ++ [d]) s)))).
Proof.
  intros s. pose proof (run_Inv cfg Hvalid sched) as HI. fold (run cfg sched) in HI.
  fold s in HI.
  assert (pc s = MPanic \/ pc s <> MPanic) as [HP|HP]
    by (destruct (pc s); (by left) || (by right)).
  { rewrite (panic_state s HI HP). simpl. repeat split; try lia; done. }
  destruct (flow_lengths s HI HP) as [L1 L2].
  pose proof (Inv_running cfg s HI HP) as (HM & HW & _ & HC & _).
  assert (pc s = MMake \/ (1 <= phase (pc s))%nat) as [H0|H1]
    by (destruct (pc s); simpl; (by left) || (right; lia)).
  { rewrite (im_start _ _ HM H0). simpl. repeat split; try lia; done. }
  pose proof (produced_bounds s HM H1) as Hb.
  split; [lia|]. split; [lia|]. split.
  - intros i Hp Hi. unfold step, running, main_step. rewrite Hp in *. simpl in *.
    assert ((i <=? LastImageIndex cfg) = true) as -> by (by apply Z.leb_le).
    assert ((Z.of_nat (length (jobs_buf s)) <? capacity cfg) = true) as ->.
    { apply Z.ltb_lt. unfold capacity in *. lia. }
    rewrite int_incr_no_wrap; [done|].
    pose proof (im_counter _ _ HM) as Hc. rewrite Hp in Hc. simpl in Hc.
    destruct Hvalid as (? & ? & ?). lia.
  - intros k w d Hk Hw.
    pose proof (held_sending _ _ _ _ Hk Hw) as Hin.
    apply list_elem_of_split in Hin as (l1 & l2 & Hs).
    rewrite Hs, length_app in L2. simpl in L2.
    assert (results_closed s = false) as Hrc.
    { destruct (results_closed s) eqn:E; [|done].
      pose proof (iw_sealed _ HW E) as Ha.
      assert (is_exited w = true) as He.
      { eapply alive_zero; [done|]. by eapply list_elem_of_lookup_2. }
      unfold is_exited in He. by rewrite Hw in He. }
    assert (running s = true) as Hrun.
    { unfold running. destruct (pc s) eqn:Hp; try done.
      destruct (exit_sealed s HI Hp). congruence. }
    unfold step. rewrite Hrun, Hk. unfold worker_step. rewrite Hw, Hrc.
    assert ((Z.of_nat (length (results_buf s)) <? capacity cfg) = true) as ->.
    { apply Z.ltb_lt. lia. }
    done.
Qed.

Lemma wids_seqZ (ws : list Worker) :
  (forall k w, ws !! k = Some w -> wid w = Z.of_nat k + 1) ->
  wid <$> ws = seqZ 1 (Z.of_nat (length ws)).
Proof.
  intros H. apply list_eq. intros k. rewrite list_lookup_fmap.
  destruct (ws !! k) as [w|] eqn:Hk; simpl.
  - pose proof (lookup_lt_Some _ _ _ Hk) as Hlt. symmetry.
    rewrite (H _ _ Hk). rewrite lookup_seqZ. split; lia.
  - symmetry. apply lookup_seqZ_ge. apply lookup_ge_None in Hk. lia.
Qed.

(** X7. The counter of the wait group is the number of workers that have
    not returned, it stays between 0 and the number of workers started,
    and the workers started so far carry the ids 1, 2, ... in the order of
    their start, never more than [WorkerCount] of them. *)
Theorem X7_wait_group_counts_workers (sched : list Thread) :
  let s := run cfg sched in
  wg s = Z.of_nat (alive (workers s)) /\
  0 <= wg s <= Z.of_nat (length (workers s)) /\
  Z.of_nat (length (workers s)) <= Z.max 0 (WorkerCount cfg) /\
  wid <$> workers s = seqZ 1 (Z.of_nat (length (workers s))) /\
  ((2 <= phase (pc s) <= 9)%nat ->
     Z.of_nat (length (workers s)) = Z.max 0 (WorkerCount cfg)).
Proof.
  intros s. pose proof (run_Inv cfg Hvalid sched) as HI. fold (run cfg sched) in HI.
  fold s in HI.
  assert (pc s = MPanic \/ pc s <> MPanic) as [HP|HP]
    by (destruct (pc s); (by left) || (by right)).
  { rewrite (panic_state s HI HP). simpl. repeat split; try lia; done. }
  pose proof (Inv_running cfg s HI HP) as (HM & HW & _).
  pose proof (im_workers _ _ HM) as Hn. pose proof (im_counter _ _ HM) as Hc.
  assert (alive (workers s) <= length (workers s))%nat as Ha.
  { unfold alive. apply length_filter. }
  split; [apply (iw_wg _ HW)|]. rewrite (iw_wg _ HW).
  split; [lia|]. split; [|split].
  - rewrite Hn. destruct (pc s); simpl in *; lia.
  - apply wids_seqZ, (im_wids _ _ HM).
  - intros Hp. rewrite Hn. destruct (pc s); simpl in *; lia.
Qed.

Lemma seqZ_split (l1 l2 : list Z) (a p : Z) :
  l1 ++ l2 = seqZ a p ->
  l1 = seqZ a (Z.of_nat (length l1)) /\
  l2 = seqZ (a + Z.of_nat (length l1)) (Z.of_nat (length l2)).
Proof.
  intros H.
  assert (Z.of_nat (length l1 + length l2) = Z.max 0 p) as Hl.
  { apply (f_equal length) in H. rewrite length_app, length_seqZ in H. lia. }
  assert (seqZ a p = seqZ a (Z.of_nat (length l1) + Z.of_nat (length l2))) as Hp.
  { destruct (decide (0 <= p)); [f_equal; lia|].
    rewrite seqZ_nil by lia. destruct l1, l2; simpl in *; try lia. done. }
  rewrite Hp, seqZ_app in H by lia.
  apply app_inj_1 in H; [done|]. rewrite length_seqZ. lia.
Qed.

(** X8. The jobs are taken in the order they were queued: at every moment
    the indices the workers have taken off [jobs] are the first of the
    range in ascending order, and what waits in the channel continues them
    without a gap. *)
Theorem X8_jobs_first_in_first_out (sched : list Thread) :
  let s := run cfg sched in
  let n := Z.of_nat (length (fetched s)) in
  fetched s = seqZ (FirstImageIndex cfg) n /\
  jobs_buf s = seqZ (FirstImageIndex cfg + n) (Z.of_nat (length (jobs_buf s))) /\
  n + Z.of_nat (length (jobs_buf s)) <= Z.max 0 (capacity cfg).
Proof.
  intros s n. pose proof (run_Inv cfg Hvalid sched) as HI. fold (run cfg sched) in HI.
  fold s in HI.
  assert (pc s = MPanic \/ pc s <> MPanic) as [HP|HP]
    by (destruct (pc s); (by left) || (by right)).
  { subst n. rewrite (panic_state s HI HP). simpl. repeat split; try lia; done. }
  destruct (flow_lengths s HI HP) as [L1 _].
  pose proof (Inv_running cfg s HI HP) as (HM & _ & HF & _).
  destruct (seqZ_split _ _ _ _ (if_queue _ _ HF)) as [H1 H2].
  split; [done|]. split; [done|].
  assert (pc s = MMake \/ (1 <= phase (pc s))%nat) as [H0|Hph]
    by (destruct (pc s); simpl; (by left) || (right; lia)).
  { subst n. rewrite (im_start _ _ HM H0). simpl. lia. }
  pose proof (produced_bounds s HM Hph). lia.
Qed.

(** X9. A bound on the length of every execution that depends on the
    constants alone: no sequence of steps from the start is longer than
    10 + 2 * WorkerCount + 5 * (the size of the range). *)
Theorem X9_steps_bounded (n : nat) (s : State) :
  nsteps (steps cfg) n init s ->
  (n <= 10 + 2 * Z.to_nat (WorkerCount cfg) + 5 * Z.to_nat (capacity cfg))%nat.
Proof.
  intros Hn.
  destruct (nsteps_bounded cfg Hvalid n init s) as [_ Hm]; [|done|].
  { apply (run_Inv cfg Hvalid []). }
  unfold measure in Hm at 2. simpl in Hm.
  change (alive []) with 0%nat in Hm. unfold capacity in *. lia.
Qed.

(** X10. When [main] has returned nothing is left behind: every worker has
    returned, the goroutine that seals [results] is done, the wait group is
    at zero, both channels are closed, [results] is empty, everything sent
    was received, and with at least one worker [jobs] is empty too. *)
Theorem X10_nothing_left_at_exit (sched : list Thread) :
  let s := run cfg sched in
  pc s = MExit ->
  Forall (fun w => wpc w = WExited) (workers s) /\
  Z.of_nat (length (workers s)) = Z.max 0 (WorkerCount cfg) /\
  waiter s = WtDone /\ wg s = 0 /\
  jobs_closed s = true /\ results_closed s = true /\
  results_buf s = [] /\ arrived s = published s /\
  sending (workers s) = [] /\
  (1 <= WorkerCount cfg -> jobs_buf s = []).
Proof.
  intros s Hp. pose proof (run_Inv cfg Hvalid sched) as HI. fold (run cfg sched) in HI.
  fold s in HI.
  destruct (exit_sealed s HI Hp) as [Hrc Hrb].
  pose proof (Inv_Facts cfg Hvalid s HI) as HF.
  destruct (fa_sealed _ _ HF Hrc) as (Ha & Hn & Hwg & Hjc & _ & Hj).
  assert (pc s <> MPanic) as HP by (by rewrite Hp).
  pose proof (Inv_running cfg s HI HP) as (_ & HW & _).
  repeat split; try done.
  - by apply alive_zero_exited.
  - by apply (iw_closed _ HW).
  - by rewrite (fa_pub _ _ HF), Hrb, app_nil_r.
  - by apply sending_zero.
Qed.

End Flow.

(** ** What is printed, and the edges of the constants *)

Section Lines.

Context {W : World} {Fpdf : Type} {B : PdfBuilder Fpdf}.
Variable cfg : Config.

Lemma progress_line_other id i : progress_line id i <> success_line.
Proof. discriminate. Qed.

Lemma download_error_line_other i err : download_error_line i err <> success_line.
Proof. discriminate. Qed.

Lemma add_error_line_other i err : add_error_line i err <> success_line.
Proof. discriminate. Qed.

Lemma save_error_line_other err : save_error_line err <> success_line.
Proof. discriminate. Qed.

Ltac step_split H :=
  unfold step, main_step, worker_step, waiter_step, collect_one, build_one,
    advance, print, set_worker in H; simpl in H; try discriminate H;
  repeat (case_match; simplify_eq/=).

Ltac new_line :=
  match goal with
  | Hin : _ ∈ _ ++ [_] |- _ =>
      apply elem_of_app in Hin as [Hin|Hin];
      [|apply list_elem_of_singleton in Hin]
  end.

Lemma step_InvLines t s s' :
  InvMain cfg s -> InvLines s -> step cfg t s = Some s' -> InvLines s'.
Proof.
  intros [HS HM H1 H2 H3 H4 H7 H8] [L1 L2] H.
  destruct s as [p ws wt jb jc rb rc g m d out fe pu ar bu].
  step_split H.
  all: split; simpl in *; intros; rewrite ?length_insert, ?length_app.
  all: try new_line.
  all: try (by specialize (L2 ltac:(done))).
  all: try (exfalso; symmetry in Hin;
            by (eapply progress_line_other || eapply download_error_line_other
                || eapply add_error_line_other || eapply save_error_line_other)).
  all: try done.
  all: try (destruct (L1 _ ltac:(done)) as (id & ? & ?); exists id;
            split; [simpl; lia|]; set_solver).
  all: try (specialize (L2 ltac:(done)); subst; simpl in *; done).
  match goal with
  | Hk : ws !! _ = Some ?w |- _ =>
      exists (wid w); pose proof (lookup_lt_Some _ _ _ Hk);
      split; [rewrite (H4 _ _ Hk); lia|]
  end.
  subst. set_solver.
Qed.

Lemma step_not_panicked t s s' : step cfg t s = Some s' -> pc s <> MPanic.
Proof. intros H Hp. unfold step, running in H. by rewrite Hp in H. Qed.

Lemma run_InvLines (sched : list Thread) :
  ValidConfig cfg -> InvLines (run cfg sched).
Proof.
  intros Hv. induction sched as [|t sched IH] using rev_ind.
  - split; simpl; [intros i Hi|intros Hi]; by apply elem_of_nil in Hi.
  - unfold run in *. rewrite exec_snoc.
    destruct (step cfg t (exec cfg sched init)) as [s'|] eqn:Hst; [|done].
    simpl. eapply step_InvLines; [|done..].
    eapply Inv_running; [by apply run_Inv|by eapply step_not_panicked].
Qed.

Lemma workers_bound (s : State) :
  ValidConfig cfg -> Inv cfg s ->
  Z.of_nat (length (workers s)) <= Z.max 0 (WorkerCount cfg).
Proof.
  intros Hv HI.
  assert (pc s = MPanic \/ pc s <> MPanic) as [HP|HP]
    by (destruct (pc s); (by left) || (by right)).
  { unfold Inv in HI. rewrite HP in HI. destruct HI as [_ ->]. simpl. lia. }
  pose proof (Inv_running cfg s HI HP) as (HM & _).
  rewrite (im_workers _ _ HM). pose proof (im_counter _ _ HM).
  destruct (pc s); simpl in *; lia.
Qed.

(** X11. Every download is announced: for each index a worker has taken
    off [jobs] the line [Worker <id>: Downloading image <index>...] is on
    standard output, with the id of one of the workers started so far,
    between 1 and [WorkerCount]. *)
Theorem X11_downloads_announced (sched : list Thread) (i : Z) :
  ValidConfig cfg ->
  let s := run cfg sched in
  i ∈ fetched s ->
  exists id, 1 <= id <= WorkerCount cfg /\
             id <= Z.of_nat (length (workers s)) /\
             progress_line id i ∈ stdout s.
Proof.
  intros Hv s Hi.
  destruct (il_progress _ (run_InvLines sched Hv) i Hi) as (id & Hid & Hin).
  pose proof (workers_bound _ Hv (run_Inv cfg Hv sched)) as Hb.
  fold (run cfg sched) in Hb. fold s in Hid, Hb.
  exists id. repeat split; try done; lia.
Qed.

(** X12. The line [PDF created successfully as final_output.pdf] is on
    standard output exactly when [main] has returned: it is not printed
    early, and not by a process that panicked. *)
Theorem X12_success_line_marks_exit (sched : list Thread) :
  ValidConfig cfg ->
  let s := run cfg sched in
  success_line ∈ stdout s <-> pc s = MExit.
Proof.
  intros Hv s. split; [apply (il_success _ (run_InvLines sched Hv))|].
  intros Hp. pose proof (run_Inv cfg Hv sched) as HI. fold (run cfg sched) in HI.
  fold s in HI. assert (pc s <> MPanic) as HP by (by rewrite Hp).
  pose proof (Inv_running cfg s HI HP) as (_ & _ & _ & _ & HO).
  destruct (io_exit _ HO Hp) as [pre ->]. set_solver.
Qed.

(** X13. With [WorkerCount] at 0 or below no goroutine is started and
    nothing is downloaded: no worker, no request, no result, no image
    placed. The program does not hang on it: the run can still be carried
    on to the return of [main], which closes and writes the document that
    [gofpdf.New] made. *)
Theorem X13_no_worker_no_download (sched : list Thread) :
  ValidConfig cfg -> WorkerCount cfg <= 0 ->
  channels_made cfg = true ->
  let s := run cfg sched in
  workers s = [] /\ wg s = 0 /\ fetched s = [] /\ published s = [] /\
  built s = [] /\ pdf s = document (pc s) [] /\
  exists rest, pc (run cfg (sched ++ rest)) = MExit /\
               built (run cfg (sched ++ rest)) = [].
Proof.
  intros Hv HW Hcap.
  assert (forall sch, let s := run cfg sch in
            workers s = [] /\ wg s = 0 /\ fetched s = [] /\ published s = [] /\
            built s = [] /\ pdf s = document (pc s) []) as Hall.
  { intros sch s.
    pose proof (run_Inv cfg Hv sch) as HI. fold (run cfg sch) in HI. fold s in HI.
    pose proof (workers_bound _ Hv HI) as Hb.
    assert (workers s = []) as Hws by (destruct (workers s); [done|simpl in Hb; lia]).
    assert (fetched s = []) as Hfe.
    { destruct (fetched s) as [|i l] eqn:E; [done|].
      destruct (il_progress _ (run_InvLines sch Hv) i) as (id & Hid & _).
      - fold s. rewrite E. set_solver.
      - fold s in Hid. rewrite Hws in Hid. simpl in Hid. lia. }
    pose proof (Inv_Facts cfg Hv s HI) as HF.
    assert (published s = []) as Hpu.
    { pose proof (fa_fetched _ _ HF) as Hp. rewrite Hfe in Hp.
      apply Permutation_nil_l in Hp. symmetry in Hp. apply fmap_nil_inv in Hp.
      by apply app_eq_nil in Hp as [? _]. }
    assert (arrived s = []) as Har.
    { pose proof (fa_pub _ _ HF) as Hp. rewrite Hpu in Hp. symmetry in Hp.
      by apply app_eq_nil in Hp as [? _]. }
    assert (built s = []) as Hbu.
    { rewrite (fa_built _ _ HF), (fa_map _ _ HF), Har. apply ordered_empty. }
    assert (wg s = 0) as Hwg.
    { assert (pc s = MPanic \/ pc s <> MPanic) as [HP|HP]
        by (destruct (pc s); (by left) || (by right)).
      - unfold Inv in HI. rewrite HP in HI. destruct HI as [_ ->]. done.
      - pose proof (Inv_running cfg s HI HP) as (_ & HWk & _).
        rewrite (iw_wg _ HWk), Hws. done. }
    repeat split; try done. by rewrite (fa_pdf _ _ HF), Hbu. }
  intros s. destruct (Hall sched) as (? & ? & ? & ? & ? & ?).
  repeat split; try done.
  destruct (run_completes cfg sched Hv Hcap) as [_ [rest Hrest]].
  exists rest. split; [done|]. by destruct (Hall (sched ++ rest)) as (_ & _ & _ & _ & ? & _).
Qed.

Lemma wrap_int_range z : int_min <= wrap_int z <= int_max.
Proof.
  unfold wrap_int, int_min, int_max.
  pose proof (Z.mod_pos_bound (z + 2 ^ 63) (2 ^ 64) ltac:(lia)). lia.
Qed.

Lemma step_before_close t s s' :
  LastImageIndex cfg = int_max -> FirstImageIndex cfg <= int_max ->
  not_closed_yet s -> step cfg t s = Some s' -> not_closed_yet s'.
Proof.
  intros Hlast Hfirst (Hb & Hjc & Hrc & Hwt & Hbu) H. unfold not_closed_yet, before_close in *.
  destruct s as [p ws wt jb jc rb rc g m d out fe pu ar bu].
  simpl in *. subst.
  step_split H.
  all: simpl in *; try done.
  all: try (repeat split; try done; apply wrap_int_range).
  all: try (repeat split; done).
  all: try lia.
Qed.

(** X14. With [LastImageIndex] at the largest [int] the condition
    [i <= LastImageIndex] cannot fail, the counter wrapping round instead:
    under no schedule does [main] get to [close(jobs)], so [results] is
    never sealed, no page is added and [main] does not return. *)
Theorem X14_largest_last_index_never_returns (sched : list Thread) :
  LastImageIndex cfg = int_max -> FirstImageIndex cfg <= int_max ->
  let s := run cfg sched in
  before_close s /\ jobs_closed s = false /\ results_closed s = false /\
  built s = [] /\ pc s <> MExit.
Proof.
  intros Hlast Hfirst s.
  assert (not_closed_yet s) as (Hb & Hjc & Hrc & _ & Hbu).
  { subst s. induction sched as [|t sched IH] using rev_ind.
    - by repeat split.
    - unfold run in *. rewrite exec_snoc.
      destruct (step cfg t (exec cfg sched init)) as [s'|] eqn:Hst; [|done].
      simpl. by eapply step_before_close. }
  repeat split; try done.
  intros Hp. unfold before_close in Hb. by rewrite Hp in Hb.
Qed.

End Lines.

(** ** The document of a finished run *)

Section Outcome.

Context {W : World} {Fpdf : Type} {B : PdfBuilder Fpdf}.

Lemma omap_length_le {A C : Type} (f : A -> option C) (l : list A) :
  (length (omap f l) <= length l)%nat.
Proof.
  induction l as [|a l IH]; [done|].
  change (omap f (a :: l))
    with (match f a with Some y => y :: omap f l | None => omap f l end).
  destruct (f a); simpl; lia.
Qed.

Lemma expected_output_bound (cfg : Config) :
  Z.of_nat (length (expected_output cfg)) <= Z.max 0 (capacity cfg).
Proof.
  unfold expected_output.
  pose proof (omap_length_le (fun i => match DownloadImage (ImageURL cfg i) with
                 | (Some img, None) => Some (i, img)
                 | _ => None
                 end) (seqZ (FirstImageIndex cfg) (capacity cfg))) as H.
  rewrite length_seqZ in H. lia.
Qed.

(** X15. From the end of the ordered loop on, what the run has handed to
    [AddImageToPDF] is a function of the downloads alone: the indices of
    the range in ascending order, each with the image its download gave,
    the failed downloads left out. The document is the one these calls
    build, closed by [OutputFileAndClose] once that has run. *)
Theorem X15_output_in_closed_form (cfg : Config) (sched : list Thread) :
  ValidConfig cfg -> 1 <= WorkerCount cfg ->
  let s := run cfg sched in
  after_build (pc s) ->
  built s = expected_output cfg /\
  pdf s = document (pc s) (expected_output cfg) /\
  Z.of_nat (length (built s)) <= Z.max 0 (capacity cfg).
Proof.
  intros Hv HW s Hab.
  pose proof (finished_built cfg sched Hv HW Hab) as Hb. fold s in Hb.
  pose proof (Inv_Facts cfg Hv _ (run_Inv cfg Hv sched)) as HF.
  fold (run cfg sched) in HF. fold s in HF.
  split; [done|]. split; [by rewrite (fa_pdf _ _ HF), Hb|].
  rewrite Hb. apply expected_output_bound.
Qed.

Lemma expected_output_same (cfg1 cfg2 : Config) :
  url_prefix cfg1 = url_prefix cfg2 -> url_suffix cfg1 = url_suffix cfg2 ->
  FirstImageIndex cfg1 = FirstImageIndex cfg2 ->
  LastImageIndex cfg1 = LastImageIndex cfg2 ->
  expected_output cfg1 = expected_output cfg2.
Proof.
  intros H1 H2 H3 H4. unfold expected_output, capacity, ImageURL.
  by rewrite H1, H2, H3, H4.
Qed.

(** X16. Neither the schedule nor the number of workers changes the
    outcome: two runs over the same URL template and range, each with at
    least one worker, that have come to the return of [main] have made the
    same calls of [AddImageToPDF] and written the same document. *)
Theorem X16_outcome_independent_of_workers
    (cfg1 cfg2 : Config) (sched1 sched2 : list Thread) :
  ValidConfig cfg1 -> ValidConfig cfg2 ->
  1 <= WorkerCount cfg1 -> 1 <= WorkerCount cfg2 ->
  url_prefix cfg1 = url_prefix cfg2 -> url_suffix cfg1 = url_suffix cfg2 ->
  FirstImageIndex cfg1 = FirstImageIndex cfg2 ->
  LastImageIndex cfg1 = LastImageIndex cfg2 ->
  pc (run cfg1 sched1) = MExit -> pc (run cfg2 sched2) = MExit ->
  built (run cfg1 sched1) = built (run cfg2 sched2) /\
  pdf (run cfg1 sched1) = pdf (run cfg2 sched2).
Proof.
  intros Hv1 Hv2 HW1 HW2 E1 E2 E3 E4 Hx1 Hx2.
  assert (after_build (pc (run cfg1 sched1))) as Ha1 by (right; by right).
  assert (after_build (pc (run cfg2 sched2))) as Ha2 by (right; by right).
  pose proof (finished_built cfg1 sched1 Hv1 HW1 Ha1) as Hb1.
  pose proof (finished_built cfg2 sched2 Hv2 HW2 Ha2) as Hb2.
  pose proof (Inv_Facts cfg1 Hv1 _ (run_Inv cfg1 Hv1 sched1)) as HF1.
  pose proof (Inv_Facts cfg2 Hv2 _ (run_Inv cfg2 Hv2 sched2)) as HF2.
  fold (run cfg1 sched1) in HF1. fold (run cfg2 sched2) in HF2.
  assert (built (run cfg1 sched1) = built (run cfg2 sched2)) as Hb.
  { rewrite Hb1, Hb2. by apply expected_output_same. }
  split; [done|]. by rewrite (fa_pdf _ _ HF1), (fa_pdf _ _ HF2), Hb, Hx1, Hx2.
Qed.

(** *** Counting pages *)

Section Counting.

(** An observer of documents that counts their pages: [gofpdf.New] gives
    none, [AddPage] adds one, registering and placing an image add none. *)
Variable page_count : Fpdf -> nat.
Hypothesis count_New : forall o u sz f, page_count (gofpdf_New o u sz f) = 0%nat.
Hypothesis count_AddPage : forall d, page_count (AddPage d) = S (page_count d).
Hypothesis count_Register :
  forall d name tp buf, page_count (RegisterImageReader d name tp buf) = page_count d.
Hypothesis count_Place :
  forall d name x y w h, page_count (PlaceImage d name x y w h) = page_count d.

Lemma count_AddImageToPDF (d : Fpdf) (img : Image) (i : Z) :
  page_count (AddImageToPDF d img i).1 =
    (page_count d + if encodes (i, img) then 1 else 0)%nat.
Proof.
  unfold AddImageToPDF, encodes. simpl.
  destruct (png_Encode img); simpl.
  - rewrite count_Place, count_Register, count_AddPage. lia.
  - lia.
Qed.

Lemma count_pages (calls : list (Z * Image)) :
  page_count (pages calls) = length (filter (fun c => encodes c = true) calls).
Proof.
  induction calls as [|[i img] calls IH] using rev_ind.
  - unfold pages. simpl. apply count_New.
  - rewrite pages_snoc, count_AddImageToPDF, IH, filter_app, length_app.
    f_equal. rewrite filter_cons, filter_nil.
    destruct (encodes (i, img)) eqn:E.
    + by rewrite decide_True.
    + by rewrite decide_False.
Qed.

(** X17. Until [OutputFileAndClose] closes it, the document has one page
    for each image that was downloaded and that [png.Encode] accepted; a
    download that failed and an image that does not encode add no page,
    and there are never more pages than indices in the range. The document
    handed to [OutputFileAndClose] has one page per encodable image among
    the successful downloads of the range. *)
Theorem X17_one_page_per_encoded_image (cfg : Config) (sched : list Thread) :
  ValidConfig cfg ->
  let s := run cfg sched in
  (phase (pc s) <= 7)%nat ->
  page_count (pdf s) = length (filter (fun c => encodes c = true) (built s)) /\
  Z.of_nat (page_count (pdf s)) <= Z.max 0 (capacity cfg) /\
  (1 <= WorkerCount cfg -> pc s = MSave ->
     page_count (pdf s) =
       length (filter (fun c => encodes c = true) (expected_output cfg))).
Proof.
  intros Hv s Hph.
  pose proof (Inv_Facts cfg Hv _ (run_Inv cfg Hv sched)) as HF.
  fold (run cfg sched) in HF. fold s in HF.
  assert (page_count (pdf s) = length (filter (fun c => encodes c = true) (built s)))
    as Hc.
  { rewrite (fa_pdf _ _ HF), <- count_pages.
    destruct (pc s); simpl in Hph; try lia; done. }
  split; [done|]. split.
  - rewrite Hc.
    pose proof (length_filter (fun c => encodes c = true) (built s)) as H1.
    assert (Z.of_nat (length (built s)) <= Z.max 0 (capacity cfg)); [|lia].
    rewrite (fa_built _ _ HF). unfold ordered.
    pose proof (omap_length_le (fun i => match imageMap s !! i with
                                      | Some (Some img) => Some (i, img)
                                      | _ => None
                                      end)
                  (seqZ (FirstImageIndex cfg) (visited cfg (pc s)))) as H2.
    rewrite length_seqZ in H2.
    assert (visited cfg (pc s) <= Z.max 0 (capacity cfg)); [|lia].
    assert (pc s = MPanic \/ pc s <> MPanic) as [HP|HP]
      by (destruct (pc s); (by left) || (by right)).
    { rewrite HP. simpl. lia. }
    pose proof (Inv_running cfg s (run_Inv cfg Hv sched) HP) as (HM & _).
    pose proof (im_counter _ _ HM) as Hk.
    pose proof (im_cap _ _ HM) as Hcap.
    destruct (pc s); simpl in *; unfold capacity in *; lia.
  - intros HW Hp. rewrite Hc. unfold s.
    rewrite (finished_built cfg sched Hv HW); [done|]. left. exact Hp.
Qed.

End Counting.

End Outcome.

(** ** The same on the small instances *)

Section MoreInstances.

Import Demo.

#[local] Existing Instance stub_world.
#[local] Existing Instance small_builder.

(** The small instance after eight rounds: [main] is about to queue index
    4, the first worker holds the result for index 3, two results wait in
    [results]. *)
Example small_run_in_flight :
  let s := run small_config (round_robin 3 8) in
  Index <$> results_buf s = [1; 2] /\ Index <$> sending (workers s) = [3] /\
  wid <$> workers s = [1; 2; 3] /\ wg s = 3.
Proof. vm_compute. repeat split; reflexivity. Qed.

Lemma X3_image_names_unique_witness :
  let s := small_run in
  NoDup (image_name <$> (built s).*1) /\
  forall pdf0 img index buf, png_Encode img = inl buf ->
    (AddImageToPDF pdf0 img index).1 =
      PlaceImage (RegisterImageReader (AddPage pdf0) (image_name index) "PNG" buf)
                 (image_name index) 10 10
                 (inject_Z (Dx (Bounds img)) / 4)%Q (inject_Z (Dy (Bounds img)) / 4)%Q.
Proof.
  apply (X3_image_names_unique small_config (round_robin 3 30)).
  unfold ValidConfig, int_min, int_max. simpl. lia.
Defined.

Lemma X4_urls_requested_once_witness :
  NoDup (ImageURL small_config <$> fetched small_run).
Proof.
  apply (X4_urls_requested_once small_config (round_robin 3 30)).
  unfold ValidConfig, int_min, int_max. simpl. lia.
Defined.

Example small_run_urls :
  ImageURL small_config <$> fetched small_run =
    ["XX/1.XX"; "XX/2.XX"; "XX/3.XX"; "XX/4.XX"; "XX/5.XX"].
Proof. vm_compute. reflexivity. Qed.

Lemma X5_results_well_formed_witness :
  let d := mkImageData 4 None (Some "failed to decode image: image: unknown format") in
  1 <= Index d <= 5 /\
  populated_once d /\
  (forall img, Image_ d = Some img ->
     exists body src, http_Get (ImageURL small_config (Index d)) = inl body /\
                      image_Decode body = inl src /\ img = convertTo8Bit src) /\
  (forall err, Error d = Some err ->
     (exists e, err = "failed to download image: " +:+ e) \/
     (exists e, err = "failed to decode image: " +:+ e)).
Proof.
  apply (X5_results_well_formed small_config (round_robin 3 30)).
  - unfold ValidConfig, int_min, int_max. simpl. lia.
  - vm_compute. repeat constructor.
Defined.

Lemma X6_sends_never_block_witness :
  let s := run small_config (round_robin 3 8) in
  Z.of_nat (length (jobs_buf s)) <= Z.max 0 (capacity small_config) /\
  Z.of_nat (length (results_buf s)) <= Z.max 0 (capacity small_config) /\
  (forall i, pc s = MProduce i -> i <= 5 ->
     step small_config TMain s =
       Some (set_pc (MProduce (i + 1)) (set_jobs_buf (jobs_buf s ++ [i]) s))) /\
  (forall k w d, workers s !! k = Some w -> wpc w = WSend d ->
     step small_config (TWorker k) s =
       Some (set_worker k (mkWorker (wid w) WRecv)
            (set_published (published s ++ [d])
            (set_results_buf (results_buf s ++ [d]) s)))).
Proof.
  apply (X6_sends_never_block small_config).
  unfold ValidConfig, int_min, int_max. simpl. lia.
Defined.

Lemma X7_wait_group_counts_workers_witness :
  let s := run small_config (round_robin 3 8) in
  wg s = Z.of_nat (alive (workers s)) /\
  0 <= wg s <= Z.of_nat (length (workers s)) /\
  Z.of_nat (length (workers s)) <= Z.max 0 3 /\
  wid <$> workers s = seqZ 1 (Z.of_nat (length (workers s))) /\
  ((2 <= phase (pc s) <= 9)%nat -> Z.of_nat (length (workers s)) = Z.max 0 3).
Proof.
  apply (X7_wait_group_counts_workers small_config).
  unfold ValidConfig, int_min, int_max. simpl. lia.
Defined.

Lemma X8_jobs_first_in_first_out_witness :
  let s := run small_config (round_robin 3 8) in
  let n := Z.of_nat (length (fetched s)) in
  fetched s = seqZ 1 n /\
  jobs_buf s = seqZ (1 + n) (Z.of_nat (length (jobs_buf s))) /\
  n + Z.of_nat (length (jobs_buf s)) <= Z.max 0 (capacity small_config).
Proof.
  apply (X8_jobs_first_in_first_out small_config).
  unfold ValidConfig, int_min, int_max. simpl. lia.
Defined.

Lemma X9_steps_bounded_witness : (2 <= 10 + 2 * 3 + 5 * 5)%nat.
Proof.
  apply (X9_steps_bounded small_config) with
    (s := set_pc (MSpawn 2) (set_workers [mkWorker 1 WRecv] (set_wg 1 init))).
  - unfold ValidConfig, int_min, int_max. simpl. lia.
  - apply (nsteps_l _ _ _ (set_pc (MSpawn 1) init)).
    + exists TMain. vm_compute. reflexivity.
    + apply nsteps_once. exists TMain. vm_compute. reflexivity.
Defined.

Lemma X10_nothing_left_at_exit_witness :
  let s := small_run in
  Forall (fun w => wpc w = WExited) (workers s) /\
  Z.of_nat (length (workers s)) = Z.max 0 3 /\
  waiter s = WtDone /\ wg s = 0 /\
  jobs_closed s = true /\ results_closed s = true /\
  results_buf s = [] /\ arrived s = published s /\
  sending (workers s) = [] /\
  (1 <= 3 -> jobs_buf s = []).
Proof.
  apply (X10_nothing_left_at_exit small_config).
  - unfold ValidConfig, int_min, int_max. simpl. lia.
  - vm_compute. reflexivity.
Defined.

Lemma X11_downloads_announced_witness :
  exists id, 1 <= id <= 3 /\
             id <= Z.of_nat (length (workers small_run)) /\
             progress_line id 4 ∈ stdout small_run.
Proof.
  apply (X11_downloads_announced small_config (round_robin 3 30) 4).
  - unfold ValidConfig, int_min, int_max. simpl. lia.
  - vm_compute. repeat constructor.
Defined.

Lemma X12_success_line_marks_exit_witness :
  success_line ∈ stdout small_run <-> pc small_run = MExit.
Proof.
  apply (X12_success_line_marks_exit small_config (round_robin 3 30)).
  unfold ValidConfig, int_min, int_max. simpl. lia.
Defined.

Lemma X13_no_worker_no_download_witness :
  let s := run no_worker_config (round_robin 0 30) in
  workers s = [] /\ wg s = 0 /\ fetched s = [] /\ published s = [] /\
  built s = [] /\ pdf s = document (pc s) [] /\
  exists rest, pc (run no_worker_config (round_robin 0 30 ++ rest)) = MExit /\
               built (run no_worker_config (round_robin 0 30 ++ rest)) = [].
Proof.
  apply (X13_no_worker_no_download no_worker_config (round_robin 0 30)).
  - unfold ValidConfig, int_min, int_max. simpl. lia.
  - simpl. lia.
  - reflexivity.
Defined.

(** Without a worker the five jobs stay in [jobs]; the program still
    writes a document, of one blank page, and reports success. *)
Example no_worker_run_result :
  pc no_worker_run = MExit /\ jobs_buf no_worker_run = [1; 2; 3; 4; 5] /\
  pdf no_worker_run = [[]] /\
  stdout no_worker_run = ["Error saving PDF: disk full";
                          "PDF created successfully as final_output.pdf"].
Proof. vm_compute. repeat split; reflexivity. Qed.

Lemma X14_largest_last_index_never_returns_witness :
  let s := run top_config (round_robin 3 12) in
  before_close s /\ jobs_closed s = false /\ results_closed s = false /\
  built s = [] /\ pc s <> MExit.
Proof.
  apply (X14_largest_last_index_never_returns top_config (round_robin 3 12)).
  - reflexivity.
  - simpl. lia.
Defined.

(** The counter of the job loop has wrapped round to the smallest [int]s. *)
Example top_run_wraps :
  pc (run top_config (round_robin 3 12)) = MProduce (int_min + 4).
Proof. vm_compute. reflexivity. Qed.

Lemma X15_output_in_closed_form_witness :
  let s := small_run in
  built s = expected_output small_config /\
  pdf s = document (pc s) (expected_output small_config) /\
  Z.of_nat (length (built s)) <= Z.max 0 (capacity small_config).
Proof.
  apply (X15_output_in_closed_form small_config (round_robin 3 30)).
  - unfold ValidConfig, int_min, int_max. simpl. lia.
  - simpl. lia.
  - right; right. vm_compute. reflexivity.
Defined.

Lemma X16_outcome_independent_of_workers_witness :
  built small_run = built single_worker_run /\
  pdf small_run = pdf single_worker_run.
Proof.
  apply (X16_outcome_independent_of_workers small_config single_worker_config
           (round_robin 3 30) (round_robin 1 40)).
  - unfold ValidConfig, int_min, int_max. simpl. lia.
  - unfold ValidConfig, int_min, int_max. simpl. lia.
  - simpl. lia.
  - simpl. lia.
  - reflexivity.
  - reflexivity.
  - reflexivity.
  - reflexivity.
  - vm_compute. reflexivity.
  - vm_compute. reflexivity.
Defined.

Lemma stub_place_length (doc : list (list string)) (name : string) :
  length (match reverse doc with
          | page :: before => reverse before ++ [page ++ [name]]
          | [] => []
          end) = length doc.
Proof.
  destruct (reverse doc) as [|page before] eqn:E;
    apply (f_equal length) in E; rewrite length_reverse in E;
    rewrite ?length_app, ?length_reverse; simpl in *; lia.
Qed.

Lemma X17_one_page_per_encoded_image_witness :
  let s := run small_config (round_robin 3 25) in
  length (pdf s) = length (filter (fun c => encodes c = true) (built s)) /\
  Z.of_nat (length (pdf s)) <= Z.max 0 (capacity small_config) /\
  (1 <= 3 -> pc s = MSave ->
     length (pdf s) =
       length (filter (fun c => encodes c = true) (expected_output small_config))).
Proof.
  apply (X17_one_page_per_encoded_image length).
  - reflexivity.
  - intros d. simpl. rewrite length_app. simpl. lia.
  - reflexivity.
  - intros d name x y w h. apply stub_place_length.
  - unfold ValidConfig, int_min, int_max. simpl. lia.
  - vm_compute. lia.
Defined.

(** Three images were downloaded, two of them encode: two pages. *)
Example small_run_page_count :
  length (built small_run) = 3%nat /\ length (pdf small_run) = 2%nat.
Proof. vm_compute. split; reflexivity. Qed.

End MoreInstances.
